(** * esbuild-plugin-lightningcss-modules: the virtual-module synthesis pipeline

    A shallow embedding of [src/index.js]: the [css-modules] esbuild plugin
    that turns the export table of a lightningcss transform into a synthetic
    JavaScript module, and caches the compiled stylesheet under a virtual
    identity so that a second load hook can serve it.

    JavaScript strings are modelled as Rocq [string]s read as UTF-8 text
    (well-formed strings; a lone surrogate has no counterpart here).  The
    built-ins the plugin calls on strings ([JSON.stringify],
    [String.prototype.slice], number-to-string conversion) are written out in
    module [Js]; the functions of other packages ([bundle], the SHA-256
    digest, [camelCase], [dirname], [Buffer.toString]) are parameters. *)

From Stdlib Require Import String Ascii List Arith ZArith Lia.
From Stdlib Require Import DecimalString DecimalNat.
From stdpp Require Import base option list strings gmap.

(** ** JavaScript built-ins used by the plugin *)

Module Js.

Definition LF : ascii := "010"%char.
Definition CR : ascii := "013"%char.
Definition DQ : ascii := "034"%char.
Definition SQ : ascii := "039"%char.
Definition BSL : ascii := "092"%char.

Definition str (c : ascii) : string := String c EmptyString.

(** Lower-case hexadecimal digit, as in the [\uXXXX] escapes of
    [JSON.stringify]. *)
Definition hexDigit (n : nat) : ascii :=
  match n with
  | 0 => "0" | 1 => "1" | 2 => "2" | 3 => "3" | 4 => "4" | 5 => "5"
  | 6 => "6" | 7 => "7" | 8 => "8" | 9 => "9" | 10 => "a" | 11 => "b"
  | 12 => "c" | 13 => "d" | 14 => "e" | _ => "f"
  end%char.

(** [UnicodeEscape] of a code unit below 256: [\u00hl]. *)
Definition unicodeEscape (c : ascii) : string :=
  let n := nat_of_ascii c in
  String BSL ("u00" +:+ String (hexDigit (n / 16)) (str (hexDigit (n mod 16)))).

(** One character of [QuoteJSONString]: the seven short escapes, a
    [\u00XX] escape for the other control characters, the character itself
    otherwise (bytes of a multi-byte UTF-8 sequence are all above 127 and
    pass through). *)
Definition quoteJSONChar (c : ascii) : string :=
  let n := nat_of_ascii c in
  if (n =? 8)%nat then String BSL "b"
  else if (n =? 9)%nat then String BSL "t"
  else if (n =? 10)%nat then String BSL "n"
  else if (n =? 12)%nat then String BSL "f"
  else if (n =? 13)%nat then String BSL "r"
  else if (n =? 34)%nat then String BSL (str DQ)
  else if (n =? 92)%nat then String BSL (str BSL)
  else if (n <? 32)%nat then unicodeEscape c
  else str c.

Fixpoint quoteJSONBody (s : string) : string :=
  match s with
  | EmptyString => EmptyString
  | String c s' => quoteJSONChar c +:+ quoteJSONBody s'
  end.

(** [JSON.stringify(s)] for a string [s]. *)
Definition JSON_stringify (s : string) : string :=
  String DQ (quoteJSONBody s +:+ str DQ).

(** [s.slice(start, end)], with negative indices counted from the end. *)
Definition slice (start end_ : Z) (s : string) : string :=
  let len := Z.of_nat (String.length s) in
  let from := if (start <? 0)%Z then Z.max (len + start) 0 else Z.min start len in
  let to := if (end_ <? 0)%Z then Z.max (len + end_) 0 else Z.min end_ len in
  substring (Z.to_nat from) (Z.to_nat (Z.max (to - from) 0)) s.

(** A non-negative integer in a template literal: its decimal digits. *)
Definition numberToString (n : nat) : string :=
  NilZero.string_of_uint (Nat.to_uint n).

End Js.

(** Insertion-ordered [Map] with string keys, as an association list whose
    keys are pairwise distinct: [set] overwrites in place or appends. *)
Module JsMap.

Definition t (V : Type) : Type := list (string * V).

Fixpoint get {V} (m : t V) (k : string) : option V :=
  match m with
  | [] => None
  | (k', v) :: m' => if decide (k' = k) then Some v else get m' k
  end.

Fixpoint set {V} (m : t V) (k : string) (v : V) : t V :=
  match m with
  | [] => [(k, v)]
  | (k', v') :: m' =>
      if decide (k' = k) then (k', v) :: m' else (k', v') :: set m' k v
  end.

Definition size {V} (m : t V) : nat := length m.

End JsMap.

(** ** Data model *)

(** A composition reference of lightningcss ([composition.type]). *)
Inductive CSSModuleReference : Type :=
  | local (name : string)
  | global (name : string)
  | dependency (name : string) (specifier : string).

(** One entry of the export table; [composes] may be missing. *)
Record CSSModuleExport : Type := {
  name : string;
  composes : option (list CSSModuleReference)
}.

(** The export table, as [Object.entries(exports)] enumerates it. *)
Definition CSSModuleExports : Type := list (string * CSSModuleExport).

Definition Buffer : Type := string.

(** What [bundle] returns: [exports] is absent when the file has no
    module-scoped names. *)
Record TransformResult : Type := {
  rslt_code : Buffer;
  rslt_map : Buffer;
  rslt_exports : option CSSModuleExports
}.

Inductive JsError : Type :=
  | TransformError (cause : string)
  | TypeError.

(** The completion of a call: a value or a thrown error. *)
Inductive Completion (A : Type) : Type :=
  | Normal (a : A)
  | Throw (e : JsError).
Arguments Normal {A} a.
Arguments Throw {A} e.

(** A value of [transpiledCssModulesMap]. *)
Record TranspiledCssModule : Type := {
  code : string;
  resolveDir : string
}.

(** What a load hook hands back to esbuild. *)
Record OnLoadResult : Type := {
  res_contents : string;
  res_loader : string;
  res_resolveDir : option string
}.

(** The plugin's options that the load hook itself reads (the others are
    passed on to [bundle] unchanged) and esbuild's [initialOptions].
    [excludeFilter] is the filter as it answers on one call of the hook:
    [test] of a RegExp with the [g] or [y] flag starts at the [lastIndex]
    the call before left, so its answer for a path may change from call to
    call. *)
Record Options : Type := {
  excludeFilter : option (string -> bool)
}.

Record InitialOptions : Type := {
  loader : option (gmap string string)
}.

(** The state one plugin instance owns: the cache created in [setup], a
    [Map] only ever read and written by key, and what the instance has
    written with [console.log]. *)
Record PluginState : Type := {
  transpiledCssModulesMap : gmap string TranspiledCssModule;
  console : list (string * JsError)
}.

Definition initialState : PluginState :=
  {| transpiledCssModulesMap := ∅; console := [] |}.

(** The two mutable locals of the synthesis: the module text and the table
    of imported dependencies, a [Map] whose size names the next binding. *)
Record Synth : Type := {
  contents : string;
  dependencies : JsMap.t string
}.

Definition emptyishSourceMap : string :=
  "data:application/json;base64,eyJ2ZXJzaW9uIjozLCJzb3VyY2VzIjpbIiJdLCJtYXBwaW5ncyI6IkEifQ==".

Definition quote (s : string) : string := Js.JSON_stringify s.

Definition escape (s : string) : string := Js.slice 1 (-1) (Js.JSON_stringify s).

(** [const importDependency = (path) => ...]: the binding of a specifier,
    created (and its import prepended to [contents]) on first use. *)
Definition importDependency (path : string) (s : Synth) : string * Synth :=
  match JsMap.get (dependencies s) path with
  | Some dependenciesName => (dependenciesName, s)
  | None =>
      let dependenciesName :=
        "dependency_" +:+ Js.numberToString (JsMap.size (dependencies s)) in
      (dependenciesName,
       {| contents :=
            "import " +:+ dependenciesName +:+ " from " +:+ quote path
              +:+ Js.str Js.LF +:+ contents s;
          dependencies := JsMap.set (dependencies s) path dependenciesName |})
  end.

(** One turn of [for (const composition of cssClassExport.composes)]. *)
Definition composeStep (acc : string * Synth) (composition : CSSModuleReference)
  : string * Synth :=
  let '(compiledCssClasses, s) := acc in
  match composition with
  | local n => (compiledCssClasses +:+ " " +:+ escape n, s)
  | global n => (compiledCssClasses +:+ " " +:+ escape n, s)
  | dependency n specifier =>
      let '(d, s') := importDependency specifier s in
      (compiledCssClasses +:+ " ' + " +:+ d +:+ "[" +:+ quote n +:+ "] + '", s')
  end.

(** The value expression of one class, [compiledCssClasses] at line 129. *)
Definition compiledCssClassesOf (cssClassExport : CSSModuleExport) (s : Synth)
  : string * Synth :=
  let start := Js.str Js.SQ +:+ escape (name cssClassExport) in
  let '(compiledCssClasses, s') :=
    match composes cssClassExport with
    | Some compositions => foldl composeStep (start, s) compositions
    | None => (start, s)
    end in
  (compiledCssClasses +:+ Js.str Js.SQ, s').

Section Plugin.

(** Functions of other packages. *)
Variable sha256_base64url : string -> string.
Variable camelCase : string -> string.
Variable dirname : string -> string.
Variable toString_utf8 : Buffer -> string.
Variable toString_base64 : Buffer -> string.

(** One turn of [for (... of Object.entries(exports))]. *)
Definition exportStep (s : Synth) (entry : string * CSSModuleExport) : Synth :=
  let '(cssClassReadableName, cssClassExport) := entry in
  let '(compiledCssClasses, s') := compiledCssClassesOf cssClassExport s in
  let jsName := camelCase cssClassReadableName in
  {| contents :=
       contents s' +:+ quote jsName +:+ ":" +:+ compiledCssClasses +:+ ",";
     dependencies := dependencies s' |}.

Definition appendContents (s : Synth) (text : string) : Synth :=
  {| contents := contents s +:+ text; dependencies := dependencies s |}.

(** Lines 88 to 139: the text of the synthetic module. *)
Definition synthesize (id : string) (exports : CSSModuleExports) : string :=
  let s := {| contents := EmptyString; dependencies := [] |} in
  let s := appendContents s ("import " +:+ quote id +:+ Js.str Js.LF) in
  let s := appendContents s "export default {" in
  let s := foldl exportStep s exports in
  let s := appendContents s "}" in
  let s := appendContents s
             (Js.str Js.LF +:+ "//# sourceMappingURL=" +:+ emptyishSourceMap) in
  contents s.

(** Line 75. *)
Definition virtualId (path : string) : string :=
  "css-modules://" +:+ sha256_base64url path +:+ ".css".

(** Line 77. *)
Definition finalCode (rslt : TransformResult) : string :=
  toString_utf8 (rslt_code rslt)
    +:+ "/*# sourceMappingURL=data:application/json;base64,"
    +:+ toString_base64 (rslt_map rslt) +:+ " */".

Definition cacheSet (st : PluginState) (id : string) (v : TranspiledCssModule)
  : PluginState :=
  {| transpiledCssModulesMap := <[id := v]> (transpiledCssModulesMap st);
     console := console st |}.

Definition consoleLog (st : PluginState) (msg : string) (err : JsError)
  : PluginState :=
  {| transpiledCssModulesMap := transpiledCssModulesMap st;
     console := console st ++ [(msg, err)] |}.

(** The load hook of namespace [css-modules] (lines 34 to 41):
    destructuring the [undefined] of a missing key throws a [TypeError]. *)
Definition onLoadVirtual (initialOptions : InitialOptions) (st : PluginState)
    (path : string) : Completion OnLoadResult :=
  match transpiledCssModulesMap st !! path with
  | None => Throw TypeError
  | Some entry =>
      Normal {| res_contents := code entry;
                res_loader :=
                  default "css" (l ← loader initialOptions; l !! ".css");
                res_resolveDir := Some (resolveDir entry) |}
  end.

(** [options.excludeFilter?.test(path)], line 44. *)
Definition excluded (options : Options) (path : string) : bool :=
  default false (f ← excludeFilter options; Some (f path)).

(** The load hook of the style files (lines 43 to 145).  [bundle] stands
    for the body of the [try] block: the call of lightningcss with the
    plugin's options, on the file system of the moment, which returns a
    result or throws.  [None] is the hook's [undefined]. *)
Definition onLoad (options : Options)
    (bundle : string -> Completion TransformResult)
    (st : PluginState) (path : string)
  : Completion (option OnLoadResult) * PluginState :=
  if excluded options path
  then (Normal None, st)
  else
    match bundle path with
    | Throw err =>
        (Throw err, consoleLog st "lightning css bundling failed:" err)
    | Normal rslt =>
        match rslt_exports rslt with
        | None => (Normal None, st)
        | Some exports =>
            let id := virtualId path in
            let st' :=
              cacheSet st id
                {| code := finalCode rslt; resolveDir := dirname path |} in
            (Normal (Some {| res_contents := synthesize id exports;
                             res_loader := "js";
                             res_resolveDir := None |}),
             st')
        end
    end.

(** A build as the sequence of hook calls esbuild makes on one plugin
    instance.  A file load carries what that call meets: the options with
    the exclude filter as it answers then, and the transform as it behaves
    then. *)
Inductive Request : Type :=
  | LoadFile (options : Options)
      (bundle : string -> Completion TransformResult) (path : string)
  | LoadVirtual (path : string).

Definition serve (st : PluginState) (r : Request) : PluginState :=
  match r with
  | LoadFile options bundle path => (onLoad options bundle st path).2
  | LoadVirtual _ => st
  end.

Definition run (requests : list Request) : PluginState :=
  foldl serve initialState requests.

(** A request issues the identity [id] when it is a file load for which
    the hook hands a module back and [id] is the identity of its path. *)
Definition issues (r : Request) (id : string) : Prop :=
  match r with
  | LoadFile options bundle path =>
      virtualId path = id
      ∧ ∃ result,
          (onLoad options bundle initialState path).1 = Normal (Some result)
  | LoadVirtual _ => False
  end.

(** Whether the key [key] is the accessor key of no entry of the table. *)
Definition keyUnused (key : string) (exports : CSSModuleExports) : Prop :=
  Forall (λ entry, camelCase entry.1 ≠ key) exports.

(** ** Reading the generated module

    The notions the properties below are stated with: the statements of
    the module text, the dependency specifiers in the order of their first
    reference, and the two JavaScript readings of a generated literal. *)

Definition joinAll (l : list string) : string :=
  foldr String.append EmptyString l.

Definition compositionsOf (e : CSSModuleExport) : list CSSModuleReference :=
  default [] (composes e).

Definition specifierOf (c : CSSModuleReference) : list string :=
  match c with
  | dependency _ specifier => [specifier]
  | _ => []
  end.

(** Every dependency specifier the table mentions, in iteration order. *)
Definition specifiersOf (exports : CSSModuleExports) : list string :=
  flat_map (λ entry, flat_map specifierOf (compositionsOf entry.2)) exports.

Definition noteSpecifier (seen : list string) (specifier : string) : list string :=
  if decide (specifier ∈ seen) then seen else seen ++ [specifier].

(** The distinct specifiers, ordered by first reference. *)
Definition firstReferences (specifiers : list string) : list string :=
  foldl noteSpecifier [] specifiers.

Definition dependencyName (i : nat) : string :=
  "dependency_" +:+ Js.numberToString i.

(** The [dependencies] table once the specifiers [refs] have been imported
    in that order. *)
Definition bindings (refs : list string) : JsMap.t string :=
  imap (λ i specifier, (specifier, dependencyName i)) refs.

Definition bindingOf (refs : list string) (specifier : string) : string :=
  default EmptyString (JsMap.get (bindings refs) specifier).

Definition importStatement (binding specifier : string) : string :=
  "import " +:+ binding +:+ " from " +:+ quote specifier +:+ Js.str Js.LF.

(** The import statements of the dependencies, in first-reference order. *)
Definition dependencyImports (refs : list string) : list string :=
  imap (λ i specifier, importStatement (dependencyName i) specifier) refs.

Definition primaryImport (id : string) : string :=
  "import " +:+ quote id +:+ Js.str Js.LF.

(** What one composition adds to the value expression of its class. *)
Definition fragment (refs : list string) (c : CSSModuleReference) : string :=
  match c with
  | local n => " " +:+ escape n
  | global n => " " +:+ escape n
  | dependency n specifier =>
      " ' + " +:+ bindingOf refs specifier +:+ "[" +:+ quote n +:+ "] + '"
  end.

Definition valueExpression (refs : list string) (e : CSSModuleExport) : string :=
  Js.str Js.SQ +:+ escape (name e)
    +:+ joinAll (map (fragment refs) (compositionsOf e)) +:+ Js.str Js.SQ.

(** The properties of the exported object literal: key and value expression. *)
Definition exportProperties (refs : list string) (exports : CSSModuleExports)
  : list (string * string) :=
  map (λ entry, (camelCase entry.1, valueExpression refs entry.2)) exports.

Definition propertyText (p : string * string) : string :=
  quote p.1 +:+ ":" +:+ p.2 +:+ ",".

Definition exportStatement (props : list (string * string)) : string :=
  "export default {" +:+ joinAll (map propertyText props) +:+ "}".

Definition sourceMapMarker : string :=
  Js.str Js.LF +:+ "//# sourceMappingURL=" +:+ emptyishSourceMap.

(** The synthesis state in which the specifiers [refs] have been imported,
    in that order, and [body] is the text written after the imports. *)
Definition synthAt (refs : list string) (body : string) : Synth :=
  {| contents := joinAll (rev (dependencyImports refs)) +:+ body;
     dependencies := bindings refs |}.

(** The statements in the order the code emits them: each dependency import
    was prepended, so the latest first reference comes first. *)
Definition emittedStatements (id : string) (exports : CSSModuleExports)
  : list string :=
  let refs := firstReferences (specifiersOf exports) in
  rev (dependencyImports refs)
    ++ [primaryImport id;
        exportStatement (exportProperties refs exports);
        sourceMapMarker].

(** The order the specification words: primary import, dependency imports
    in first-reference order, export statement, marker. *)
Definition specifiedStatements (id : string) (exports : CSSModuleExports)
  : list string :=
  let refs := firstReferences (specifiersOf exports) in
  [primaryImport id] ++ dependencyImports refs
    ++ [exportStatement (exportProperties refs exports);
        sourceMapMarker].

(** Evaluation of an object literal: the properties are defined in source
    order, a repeated key redefining the property.  This is the reading of
    a literal none of whose keys is [__proto__] (that key sets the
    prototype, and twice in one literal it is a syntax error). *)
Definition evalObjectLiteral {V : Type} (props : list (string * V))
  : gmap string V :=
  foldl (λ obj p, <[p.1 := p.2]> obj) ∅ props.

(** The lexer's view of a single-quoted string literal, started after the
    opening quote: the source text that follows the closing quote, or
    [None] when the literal is cut by a line terminator or the end of the
    input.  A backslash protects the character after it (a carriage return
    with its line feed, in a line continuation); whether the escape is a
    valid one is not looked at. *)
Fixpoint scanSingleQuoted (s : string) : option string :=
  match s with
  | EmptyString => None
  | String c s' =>
      if Ascii.eqb c Js.SQ then Some s'
      else if Ascii.eqb c Js.BSL then
        match s' with
        | String e s'' =>
            if Ascii.eqb e Js.CR then
              match s'' with
              | String l s3 =>
                  if Ascii.eqb l Js.LF then scanSingleQuoted s3
                  else scanSingleQuoted s''
              | EmptyString => None
              end
            else scanSingleQuoted s''
        | EmptyString => None
        end
      else if Ascii.eqb c Js.LF || Ascii.eqb c Js.CR then None
      else scanSingleQuoted s'
  end.

(** Whether the character [c] occurs in [s]. *)
Fixpoint occurs (c : ascii) (s : string) : bool :=
  match s with
  | EmptyString => false
  | String c' s' => Ascii.eqb c' c || occurs c s'
  end.

(** A piece of text is inert inside a single-quoted literal when the lexer,
    having read it, is still inside the same literal. *)
Definition inertInLiteral (text : string) : Prop :=
  ∀ rest, scanSingleQuoted (text +:+ rest) = scanSingleQuoted rest.

Definition hexValue (c : ascii) : option nat :=
  let n := nat_of_ascii c in
  if (48 <=? n)%nat && (n <=? 57)%nat then Some (n - 48)
  else if (97 <=? n)%nat && (n <=? 102)%nat then Some (n - 87)
  else if (65 <=? n)%nat && (n <=? 70)%nat then Some (n - 55)
  else None.

(** The string value of the characters of a literal: the escapes that
    [JSON.stringify] produces are decoded, any other character stands for
    itself; an escape outside that set is not given a value. *)
Fixpoint stringValue (s : string) : option string :=
  match s with
  | EmptyString => Some EmptyString
  | String c s' =>
      if Ascii.eqb c Js.BSL then
        match s' with
        | String e s'' =>
            if Ascii.eqb e "b" then String "008"%char <$> stringValue s''
            else if Ascii.eqb e "t" then String "009"%char <$> stringValue s''
            else if Ascii.eqb e "n" then String Js.LF <$> stringValue s''
            else if Ascii.eqb e "f" then String "012"%char <$> stringValue s''
            else if Ascii.eqb e "r" then String Js.CR <$> stringValue s''
            else if Ascii.eqb e Js.DQ then String Js.DQ <$> stringValue s''
            else if Ascii.eqb e Js.BSL then String Js.BSL <$> stringValue s''
            else if Ascii.eqb e "u" then
              match s'' with
              | String "0" (String "0" (String h (String l s3))) =>
                  match hexValue h, hexValue l with
                  | Some a, Some b =>
                      String (ascii_of_nat (16 * a + b)) <$> stringValue s3
                  | _, _ => None
                  end
              | _ => None
              end
            else None
        | EmptyString => None
        end
      else String c <$> stringValue s'
  end.

(** ** The rest of the plugin

    What the hooks do besides the synthesis: the resolve hook, the filter
    of the file hook, the module configuration handed to lightningcss, and
    the notions used to state what the generated text and the cache look
    like. *)

(** The lexer's view of a double-quoted string literal, started after the
    opening quote, as [scanSingleQuoted] is for the other delimiter. *)
Fixpoint scanDoubleQuoted (s : string) : option string :=
  match s with
  | EmptyString => None
  | String c s' =>
      if Ascii.eqb c Js.DQ then Some s'
      else if Ascii.eqb c Js.BSL then
        match s' with
        | String e s'' =>
            if Ascii.eqb e Js.CR then
              match s'' with
              | String l s3 =>
                  if Ascii.eqb l Js.LF then scanDoubleQuoted s3
                  else scanDoubleQuoted s''
              | EmptyString => None
              end
            else scanDoubleQuoted s''
        | EmptyString => None
        end
      else if Ascii.eqb c Js.LF || Ascii.eqb c Js.CR then None
      else scanDoubleQuoted s'
  end.

(** The characters [JSON.stringify] writes as they are: no control
    character, no double quote, no backslash. *)
Definition plainChar (c : ascii) : bool :=
  let n := nat_of_ascii c in
  (32 <=? n)%nat && negb (n =? 34)%nat && negb (n =? 92)%nat.

Fixpoint allPlain (s : string) : bool :=
  match s with
  | EmptyString => true
  | String c s' => plainChar c && allPlain s'
  end.

Definition compositionName (c : CSSModuleReference) : string :=
  match c with
  | local n => n
  | global n => n
  | dependency n _ => n
  end.

(** The class list of an entry as one string: its compiled name, then the
    name of each composition after a space. *)
Definition spaceJoined (e : CSSModuleExport) : string :=
  name e +:+ joinAll (map (λ c, " " +:+ compositionName c) (compositionsOf e)).

(** A value of the configuration objects. *)
Inductive JsValue : Type :=
  | JsString (s : string)
  | JsBoolean (b : bool)
  | JsUndefined.

(** Line 48: [{ pattern: options.cssModulesPattern ?? `[hash]_[local]`,
    ...options.cssModules }]; the properties spread last win. *)
Definition cssModulesConfig (cssModulesPattern : option string)
    (cssModules : option (gmap string JsValue)) : gmap string JsValue :=
  default ∅ cssModules
    ∪ {[ "pattern" := JsString (default "[hash]_[local]" cssModulesPattern) ]}.




(** [s] ends with [suffix]: what [/\.module\.css$/] tests, for its suffix. *)
Fixpoint endsWith (suffix s : string) : bool :=
  String.eqb s suffix
  || match s with
     | EmptyString => false
     | String _ s' => endsWith suffix s'
     end.

(** The filter of the file hook, line 43:
    [options.includeFilter ?? /\.module\.css$/]. *)
Definition includeFilterTest (includeFilter : option (string -> bool))
    (path : string) : bool :=
  default (endsWith ".module.css") includeFilter path.

(** What one request makes the plugin write with [console.log]. *)
Definition failureLog (r : Request) : list (string * JsError) :=
  match r with
  | LoadFile options bundle path =>
      if excluded options path then []
      else match bundle path with
           | Throw err => [("lightning css bundling failed:", err)]
           | Normal _ => []
           end
  | LoadVirtual _ => []
  end.

(** ** Reading the module text as JavaScript

    A reader for the fragment of JavaScript the plugin writes: import
    declarations each ended by a line end, then [export default] with an
    object literal whose values are string literals and indexed names
    joined by [+].  Text outside the fragment is not read: the reader gives
    no result for it. *)

Inductive Token : Type :=
  | TString (value : string)
  | TName (name : string)
  | TPunct (c : ascii)
  | TNewline.

(** Where the lexer is: between tokens, in a name, in a string literal
    opened by [q] (with the value read so far), after a backslash, in the
    four digits of a [\u] escape, after one slash, in a line comment. *)
Inductive LexMode : Type :=
  | InCode
  | InName (acc : string)
  | InString (q : ascii) (acc : string)
  | InEscape (q : ascii) (acc : string)
  | InUnicode (q : ascii) (acc : string) (digits : list nat)
  | AfterSlash
  | InComment
  | LexFailed.

Record LexState : Type := {
  lexed : list Token;
  lexMode : LexMode
}.

Definition isLineEnd (c : ascii) : bool :=
  Ascii.eqb c Js.LF || Ascii.eqb c Js.CR.

Definition isSpace (c : ascii) : bool :=
  Ascii.eqb c " " || Ascii.eqb c "009".

Definition isNameStart (c : ascii) : bool :=
  let n := nat_of_ascii c in
  ((97 <=? n)%nat && (n <=? 122)%nat)
  || ((65 <=? n)%nat && (n <=? 90)%nat)
  || Ascii.eqb c "_" || Ascii.eqb c "$".

Definition isNameChar (c : ascii) : bool :=
  let n := nat_of_ascii c in
  isNameStart c || ((48 <=? n)%nat && (n <=? 57)%nat).

Definition isPunct (c : ascii) : bool :=
  Ascii.eqb c "{" || Ascii.eqb c "}" || Ascii.eqb c "[" || Ascii.eqb c "]"
  || Ascii.eqb c ":" || Ascii.eqb c "," || Ascii.eqb c "+".

(** The character a one-letter escape stands for. *)
Definition simpleEscape (c : ascii) : option ascii :=
  if Ascii.eqb c "b" then Some "008"%char
  else if Ascii.eqb c "t" then Some "009"%char
  else if Ascii.eqb c "n" then Some Js.LF
  else if Ascii.eqb c "v" then Some "011"%char
  else if Ascii.eqb c "f" then Some "012"%char
  else if Ascii.eqb c "r" then Some Js.CR
  else if Ascii.eqb c Js.DQ then Some Js.DQ
  else if Ascii.eqb c Js.SQ then Some Js.SQ
  else if Ascii.eqb c Js.BSL then Some Js.BSL
  else None.

(** A character met between tokens. *)
Definition codeStep (toks : list Token) (c : ascii) : LexState :=
  if Ascii.eqb c Js.SQ || Ascii.eqb c Js.DQ then
    {| lexed := toks; lexMode := InString c EmptyString |}
  else if isLineEnd c then {| lexed := toks ++ [TNewline]; lexMode := InCode |}
  else if isSpace c then {| lexed := toks; lexMode := InCode |}
  else if isNameStart c then {| lexed := toks; lexMode := InName (Js.str c) |}
  else if Ascii.eqb c "/" then {| lexed := toks; lexMode := AfterSlash |}
  else if isPunct c then {| lexed := toks ++ [TPunct c]; lexMode := InCode |}
  else {| lexed := toks; lexMode := LexFailed |}.

Definition lexStep (st : LexState) (c : ascii) : LexState :=
  let toks := lexed st in
  match lexMode st with
  | InCode => codeStep toks c
  | InName acc =>
      if isNameChar c then {| lexed := toks; lexMode := InName (acc +:+ Js.str c) |}
      else codeStep (toks ++ [TName acc]) c
  | InString q acc =>
      if Ascii.eqb c q then {| lexed := toks ++ [TString acc]; lexMode := InCode |}
      else if Ascii.eqb c Js.BSL then {| lexed := toks; lexMode := InEscape q acc |}
      else if isLineEnd c then {| lexed := toks; lexMode := LexFailed |}
      else {| lexed := toks; lexMode := InString q (acc +:+ Js.str c) |}
  | InEscape q acc =>
      match simpleEscape c with
      | Some v => {| lexed := toks; lexMode := InString q (acc +:+ Js.str v) |}
      | None =>
          if Ascii.eqb c "u" then {| lexed := toks; lexMode := InUnicode q acc [] |}
          else {| lexed := toks; lexMode := LexFailed |}
      end
  | InUnicode q acc digits =>
      match hexValue c, digits with
      | Some d, [d3; d2; d1] =>
          let code := ((d3 * 16 + d2) * 16 + d1) * 16 + d in
          if (code <? 128)%nat then
            {| lexed := toks;
               lexMode := InString q (acc +:+ Js.str (ascii_of_nat code)) |}
          else {| lexed := toks; lexMode := LexFailed |}
      | Some d, _ =>
          if (length digits <? 3)%nat then
            {| lexed := toks; lexMode := InUnicode q acc (digits ++ [d]) |}
          else {| lexed := toks; lexMode := LexFailed |}
      | None, _ => {| lexed := toks; lexMode := LexFailed |}
      end
  | AfterSlash =>
      if Ascii.eqb c "/" then {| lexed := toks; lexMode := InComment |}
      else {| lexed := toks; lexMode := LexFailed |}
  | InComment =>
      if isLineEnd c then {| lexed := toks ++ [TNewline]; lexMode := InCode |}
      else {| lexed := toks; lexMode := InComment |}
  | LexFailed => st
  end.

Fixpoint lexRun (st : LexState) (s : string) : LexState :=
  match s with
  | EmptyString => st
  | String c s' => lexRun (lexStep st c) s'
  end.

Definition lexStart : LexState := {| lexed := []; lexMode := InCode |}.

(** The tokens of a text, when it ends between tokens, in a name or in a
    comment. *)
Definition lex (s : string) : option (list Token) :=
  let st := lexRun lexStart s in
  match lexMode st with
  | InCode => Some (lexed st)
  | InComment => Some (lexed st)
  | InName acc => Some (lexed st ++ [TName acc])
  | _ => None
  end.

(** A part of a value expression: a string literal, or a name indexed by a
    string literal, whose value is only known when the module runs. *)
Inductive Term : Type :=
  | Lit (value : string)
  | Lookup (binding : string) (key : string).

Record ImportDeclaration : Type := {
  importedAs : option string;
  importedFrom : string
}.

(** What a module of the fragment says: its imports in order and the
    properties of the exported object in order. *)
Record ModuleReading : Type := {
  moduleImports : list ImportDeclaration;
  moduleExport : list (string * list Term)
}.

Definition reservedWords : list string :=
  ["arguments"; "await"; "break"; "case"; "catch"; "class"; "const";
   "continue"; "debugger"; "default"; "delete"; "do"; "else"; "enum";
   "eval"; "export"; "extends"; "false"; "finally"; "for"; "function";
   "if"; "implements"; "import"; "in"; "instanceof"; "interface"; "let";
   "new"; "null"; "package"; "private"; "protected"; "public"; "return";
   "static"; "super"; "switch"; "this"; "throw"; "true"; "try"; "typeof";
   "var"; "void"; "while"; "with"; "yield"].

Definition isReserved (name : string) : bool :=
  existsb (String.eqb name) reservedWords.

Inductive ParseMode : Type :=
  | AtStatement
  | AfterImport
  | AfterBinding (d : string)
  | AfterFrom (d : string)
  | AfterDeclaration
  | AfterExport
  | AfterDefault
  | AtKey
  | AfterKey (k : string)
  | AtTerm (k : string) (terms : list Term)
  | AfterLookupName (k : string) (terms : list Term) (d : string)
  | AtLookupKey (k : string) (terms : list Term) (d : string)
  | AfterLookupKey (k : string) (terms : list Term) (d : string) (key : string)
  | AfterTerm (k : string) (terms : list Term)
  | AfterObject
  | ParseFailed.

Record ParseState : Type := {
  readImports : list ImportDeclaration;
  readProperties : list (string * list Term);
  parseMode : ParseMode
}.

Definition parseStep (st : ParseState) (tok : Token) : ParseState :=
  let move mode :=
    {| readImports := readImports st; readProperties := readProperties st;
       parseMode := mode |} in
  let declare imp :=
    {| readImports := readImports st ++ [imp];
       readProperties := readProperties st; parseMode := AfterDeclaration |} in
  let define k terms mode :=
    {| readImports := readImports st;
       readProperties := readProperties st ++ [(k, terms)];
       parseMode := mode |} in
  match parseMode st, tok with
  | AtStatement, TNewline => move AtStatement
  | AtStatement, TName name =>
      if String.eqb name "import" then move AfterImport
      else if String.eqb name "export" then move AfterExport
      else move ParseFailed
  | AfterImport, TString from =>
      declare {| importedAs := None; importedFrom := from |}
  | AfterImport, TName d =>
      if isReserved d then move ParseFailed else move (AfterBinding d)
  | AfterBinding d, TName name =>
      if String.eqb name "from" then move (AfterFrom d) else move ParseFailed
  | AfterFrom d, TString from =>
      declare {| importedAs := Some d; importedFrom := from |}
  | AfterDeclaration, TNewline => move AtStatement
  | AfterExport, TName name =>
      if String.eqb name "default" then move AfterDefault else move ParseFailed
  | AfterDefault, TPunct c =>
      if Ascii.eqb c "{" then move AtKey else move ParseFailed
  | AtKey, TString k => move (AfterKey k)
  | AtKey, TPunct c =>
      if Ascii.eqb c "}" then move AfterObject else move ParseFailed
  | AfterKey k, TPunct c =>
      if Ascii.eqb c ":" then move (AtTerm k []) else move ParseFailed
  | AtTerm k terms, TString v => move (AfterTerm k (terms ++ [Lit v]))
  | AtTerm k terms, TName d =>
      if isReserved d then move ParseFailed else move (AfterLookupName k terms d)
  | AfterLookupName k terms d, TPunct c =>
      if Ascii.eqb c "[" then move (AtLookupKey k terms d) else move ParseFailed
  | AtLookupKey k terms d, TString key => move (AfterLookupKey k terms d key)
  | AfterLookupKey k terms d key, TPunct c =>
      if Ascii.eqb c "]" then move (AfterTerm k (terms ++ [Lookup d key]))
      else move ParseFailed
  | AfterTerm k terms, TPunct c =>
      if Ascii.eqb c "+" then move (AtTerm k terms)
      else if Ascii.eqb c "," then define k terms AtKey
      else if Ascii.eqb c "}" then define k terms AfterObject
      else move ParseFailed
  | AfterObject, TNewline => move AfterObject
  | _, _ => move ParseFailed
  end.

Definition parseStart : ParseState :=
  {| readImports := []; readProperties := []; parseMode := AtStatement |}.

(** A module: imports, then the exported object, then nothing but line
    ends. *)
Definition parseModule (toks : list Token) : option ModuleReading :=
  let st := foldl parseStep parseStart toks in
  match parseMode st with
  | AfterObject =>
      Some {| moduleImports := readImports st; moduleExport := readProperties st |}
  | _ => None
  end.

Definition readModule (text : string) : option ModuleReading :=
  toks ← lex text; parseModule toks.

(** One value expression on its own. *)
Definition parseTerms (toks : list Token) : option (list Term) :=
  let st :=
    foldl parseStep
      {| readImports := []; readProperties := [];
         parseMode := AtTerm EmptyString [] |} toks in
  match parseMode st with
  | AfterTerm _ terms => Some terms
  | _ => None
  end.

Definition readTerms (text : string) : option (list Term) :=
  toks ← lex text; parseTerms toks.

(** The string a value expression gives when the module runs, [env d k]
    being the string the lookup of [k] in the binding [d] contributes. *)
Definition termValue (env : string -> string -> string) (t : Term) : string :=
  match t with
  | Lit v => v
  | Lookup d k => env d k
  end.

Definition termsValue (env : string -> string -> string) (terms : list Term)
  : string :=
  joinAll (map (termValue env) terms).

Definition lexAt (toks : list Token) (mode : LexMode) : LexState :=
  {| lexed := toks; lexMode := mode |}.

Definition parseAt (imports : list ImportDeclaration)
    (props : list (string * list Term)) (mode : ParseMode) : ParseState :=
  {| readImports := imports; readProperties := props; parseMode := mode |}.

(** What the value expression of a class is expected to say: the literal
    grows with the compiled name and the Local and Global names; a
    Dependency composition closes it after a space, looks the name up in the
    binding of the specifier, and opens a new, empty literal. *)
Fixpoint termsFrom (refs : list string) (lit : string)
    (cs : list CSSModuleReference) : list Term :=
  match cs with
  | [] => [Lit lit]
  | local n :: cs' => termsFrom refs (lit +:+ " " +:+ n) cs'
  | global n :: cs' => termsFrom refs (lit +:+ " " +:+ n) cs'
  | dependency n specifier :: cs' =>
      Lit (lit +:+ " ") :: Lookup (bindingOf refs specifier) n
        :: termsFrom refs EmptyString cs'
  end.

Definition termsOf (refs : list string) (e : CSSModuleExport) : list Term :=
  termsFrom refs (name e) (compositionsOf e).

(** What the module of a table is expected to say. *)
Definition readingOf (id : string) (exports : CSSModuleExports) : ModuleReading :=
  let refs := firstReferences (specifiersOf exports) in
  {| moduleImports :=
       rev (imap (λ i specifier,
                    {| importedAs := Some (dependencyName i);
                       importedFrom := specifier |}) refs)
         ++ [{| importedAs := None; importedFrom := id |}];
     moduleExport :=
       map (λ entry, (camelCase entry.1, termsOf refs entry.2)) exports |}.

(** The tokens that say a given reading. *)
Definition termTokensOf (t : Term) : list Token :=
  match t with
  | Lit v => [TString v]
  | Lookup d k => [TName d; TPunct "["; TString k; TPunct "]"]
  end.

Definition moreTermTokens (terms : list Term) : list Token :=
  flat_map (λ t, TPunct "+" :: termTokensOf t) terms.

Definition termsTokens (terms : list Term) : list Token :=
  match terms with
  | [] => []
  | t :: ts => termTokensOf t ++ moreTermTokens ts
  end.

Definition importTokens (imp : ImportDeclaration) : list Token :=
  match importedAs imp with
  | Some d =>
      [TName "import"; TName d; TName "from"; TString (importedFrom imp);
       TNewline]
  | None => [TName "import"; TString (importedFrom imp); TNewline]
  end.

Definition propertyTokens (p : string * list Term) : list Token :=
  TString p.1 :: TPunct ":" :: termsTokens p.2 ++ [TPunct ","].

Definition moduleTokens (m : ModuleReading) : list Token :=
  flat_map importTokens (moduleImports m)
    ++ [TName "export"; TName "default"; TPunct "{"]
    ++ flat_map propertyTokens (moduleExport m)
    ++ [TPunct "}"; TNewline].

(** Names that can be bound and used: not reserved words. *)
Definition termOk (t : Term) : Prop :=
  match t with
  | Lit _ => True
  | Lookup d _ => isReserved d = false
  end.

Definition importOk (imp : ImportDeclaration) : Prop :=
  match importedAs imp with
  | Some d => isReserved d = false
  | None => True
  end.

(** What a composition adds to the class list when the module runs. *)
Definition compositionValue (env : string -> string -> string)
    (refs : list string) (c : CSSModuleReference) : string :=
  match c with
  | local n => n
  | global n => n
  | dependency n specifier => env (bindingOf refs specifier) n
  end.

(** The class list of an entry when the module runs: the compiled name,
    then, after a space each, what its compositions add. *)
Definition runtimeClassList (env : string -> string -> string)
    (refs : list string) (e : CSSModuleExport) : string :=
  name e
    +:+ joinAll (map (λ c, " " +:+ compositionValue env refs c)
                   (compositionsOf e)).

(** The names the code writes between single quotes have no apostrophe. *)
Definition writtenInLiteral (c : CSSModuleReference) : string :=
  match c with
  | local n => n
  | global n => n
  | dependency _ _ => EmptyString
  end.

Definition apostropheFreeEntry (e : CSSModuleExport) : bool :=
  negb (occurs Js.SQ (name e))
  && forallb (λ c, negb (occurs Js.SQ (writtenInLiteral c))) (compositionsOf e).

Definition apostropheFree (exports : CSSModuleExports) : bool :=
  forallb (λ entry, apostropheFreeEntry entry.2) exports.

(** ** Sample inputs

    Two small export tables, and a small build: a transform that returns a
    fixed stylesheet with a given export table, and one that fails. *)

(** One class composing from another file; two classes composing from the
    same file, the first one from a second file as well. *)
Definition oneDependency : CSSModuleExports :=
  [("a", {| name := "h_a";
            composes := Some [dependency "x" "./one.module.css"] |})].

Definition sharedDependency : CSSModuleExports :=
  [("a", {| name := "h_a";
            composes := Some [dependency "x" "./one.module.css";
                              dependency "y" "./two.module.css"] |});
   ("b", {| name := "h_b";
            composes := Some [dependency "z" "./one.module.css"] |})].

(** A class whose names carry apostrophes around a Dependency composition;
    two classes of one accessor key, the later one with an apostrophe in
    its compiled name; and what camelcase answers for their names. *)
Definition quotedAroundDependency : CSSModuleExports :=
  [("a", {| name := "'+";
            composes := Some [dependency "n" "./one.module.css";
                              local "+'"] |})].

Definition collidingWithApostrophe : CSSModuleExports :=
  [("my-a", {| name := "h_a"; composes := None |});
   ("myA", {| name := "x'y"; composes := None |})].

Definition sampleCamelCase (readable : string) : string :=
  if String.eqb readable "my-a" then "myA" else readable.

(** A class composing a local and a global class: with a compiled name in
    which two apostrophes stand around a plus sign, and with ordinary
    names. *)
Definition betweenApostrophes : CSSModuleExport :=
  {| name := "x'+'y"; composes := Some [local "b"; global "glb"] |}.

Definition localThenGlobal : CSSModuleExports :=
  [("a", {| name := "h_a"; composes := Some [local "h_b"; global "g"] |});
   ("b", {| name := "h_b"; composes := None |})].

(** Two classes of one accessor key, with ordinary names. *)
Definition collidingKeys : CSSModuleExports :=
  [("my-a", {| name := "h_a"; composes := None |});
   ("myA", {| name := "h_b"; composes := Some [local "h_c"] |})].

Definition sampleOptions : Options := {| excludeFilter := None |}.

(** The options on a call where the exclude filter answers yes. *)
Definition excludingOptions : Options :=
  {| excludeFilter := Some (λ path, true) |}.

Definition sampleInitialOptions : InitialOptions := {| loader := None |}.

Definition sampleResult (exports : option CSSModuleExports) : TransformResult :=
  {| rslt_code := ".h_a{color:red}"; rslt_map := "e30="; rslt_exports := exports |}.

Definition sampleBundle (exports : option CSSModuleExports) (path : string)
  : Completion TransformResult :=
  Normal (sampleResult exports).

Definition failingBundle (path : string) : Completion TransformResult :=
  Throw (TransformError "Unexpected token").

(** ** Strings *)

#[local] Arguments String.append !s1 s2 : simpl nomatch.

Lemma append_assoc (a b c : string) : (a +:+ b) +:+ c = a +:+ (b +:+ c).
Proof. induction a as [|x a IH]; simpl; [reflexivity | now rewrite IH]. Qed.

Lemma append_nil_r (a : string) : a +:+ EmptyString = a.
Proof. induction a as [|x a IH]; simpl; [reflexivity | now rewrite IH]. Qed.

Lemma length_append (a b : string) :
  String.length (a +:+ b) = String.length a + String.length b.
Proof. induction a as [|x a IH]; simpl; [reflexivity | now rewrite IH]. Qed.

Lemma substring_prefix (a b : string) :
  substring 0 (String.length a) (a +:+ b) = a.
Proof.
  induction a as [|x a IH]; simpl.
  - now destruct b.
  - now rewrite IH.
Qed.

Lemma joinAll_app (l1 l2 : list string) :
  joinAll (l1 ++ l2) = joinAll l1 +:+ joinAll l2.
Proof.
  induction l1 as [|x l1 IH]; simpl; [reflexivity|].
  now rewrite IH, append_assoc.
Qed.

(** ** The built-ins *)

Lemma slice_unquote (body : string) :
  Js.slice 1 (-1) (String Js.DQ (body +:+ Js.str Js.DQ)) = body.
Proof.
  unfold Js.slice. cbn [String.length Z.ltb Z.compare].
  rewrite length_append. cbn [String.length Js.str].
  set (n := String.length body).
  replace (Z.min 1 (Z.of_nat (S (n + 1)))) with 1%Z by lia.
  replace (Z.to_nat (Z.max (Z.max (Z.of_nat (S (n + 1)) + -1) 0 - 1) 0))
    with n by lia.
  change (Z.to_nat 1) with 1. cbn [substring].
  apply substring_prefix.
Qed.

(** [escape] is the body of the JSON string: [JSON.stringify] without its
    two quotes. *)
Lemma escape_body (s : string) : escape s = Js.quoteJSONBody s.
Proof. apply slice_unquote. Qed.

Lemma quoteJSONBody_app (a b : string) :
  Js.quoteJSONBody (a +:+ b) = Js.quoteJSONBody a +:+ Js.quoteJSONBody b.
Proof.
  induction a as [|x a IH]; simpl; [reflexivity|].
  now rewrite IH, append_assoc.
Qed.

Lemma escape_app (a b : string) : escape (a +:+ b) = escape a +:+ escape b.
Proof. rewrite !escape_body. apply quoteJSONBody_app. Qed.

Lemma escape_space : escape " " = " ".
Proof. reflexivity. Qed.

(** ** The table of dependencies *)

Lemma JsMap_get_app_l {V} (m1 m2 : JsMap.t V) k v :
  JsMap.get m1 k = Some v → JsMap.get (m1 ++ m2) k = Some v.
Proof.
  induction m1 as [|[k' v'] m1 IH]; simpl; [discriminate|].
  destruct (decide (k' = k)); auto.
Qed.

Lemma JsMap_get_app_r {V} (m1 m2 : JsMap.t V) k :
  JsMap.get m1 k = None → JsMap.get (m1 ++ m2) k = JsMap.get m2 k.
Proof.
  induction m1 as [|[k' v'] m1 IH]; simpl; [reflexivity|].
  destruct (decide (k' = k)); [discriminate | auto].
Qed.

Lemma JsMap_set_fresh {V} (m : JsMap.t V) k v :
  JsMap.get m k = None → JsMap.set m k v = m ++ [(k, v)].
Proof.
  induction m as [|[k' v'] m IH]; simpl; [reflexivity|].
  destruct (decide (k' = k)); [discriminate|].
  intros H. now rewrite IH.
Qed.

Lemma get_imap_None (g : nat → string) (refs : list string) (sp : string) :
  sp ∉ refs → JsMap.get (imap (λ i s, (s, g i)) refs) sp = None.
Proof.
  revert g. induction refs as [|r refs IH]; intros g Hnot; [reflexivity|].
  rewrite imap_cons. simpl.
  apply not_elem_of_cons in Hnot as [Hne Hnot].
  destruct (decide (r = sp)); [congruence|].
  apply (IH (g ∘ S)), Hnot.
Qed.

Lemma get_imap_first (g : nat → string) (r1 r2 : list string) (sp : string) :
  sp ∉ r1 →
  JsMap.get (imap (λ i s, (s, g i)) (r1 ++ sp :: r2)) sp = Some (g (length r1)).
Proof.
  intros Hnot. rewrite imap_app.
  rewrite JsMap_get_app_r by now apply get_imap_None.
  rewrite imap_cons. simpl.
  destruct (decide (sp = sp)); [|congruence].
  now rewrite Nat.add_0_r.
Qed.

Lemma to_uint_nonnil (n : nat) : Nat.to_uint n ≠ Decimal.Nil.
Proof.
  intros H. assert (Hn : n = 0).
  { rewrite <- (DecimalNat.Unsigned.of_to n), H. reflexivity. }
  subst n. discriminate H.
Qed.

Lemma numberToString_inj (i j : nat) :
  Js.numberToString i = Js.numberToString j → i = j.
Proof.
  unfold Js.numberToString. intros H.
  apply DecimalNat.Unsigned.to_uint_inj.
  apply (f_equal NilZero.uint_of_string) in H.
  rewrite !NilZero.usu in H by apply to_uint_nonnil.
  now injection H.
Qed.

(** Different ranks give different binding names. *)
Lemma dependencyName_inj (i j : nat) :
  dependencyName i = dependencyName j → i = j.
Proof.
  unfold dependencyName. intros H.
  apply numberToString_inj. exact (String.app_inj _ _ _ H).
Qed.

Lemma bindings_snoc (refs : list string) (sp : string) :
  bindings (refs ++ [sp]) = bindings refs ++ [(sp, dependencyName (length refs))].
Proof.
  unfold bindings. rewrite imap_app. simpl. now rewrite Nat.add_0_r.
Qed.

Lemma dependencyImports_snoc (refs : list string) (sp : string) :
  dependencyImports (refs ++ [sp])
  = dependencyImports refs ++ [importStatement (dependencyName (length refs)) sp].
Proof.
  unfold dependencyImports. rewrite imap_app. simpl. now rewrite Nat.add_0_r.
Qed.

Lemma get_bindings_None (refs : list string) (sp : string) :
  sp ∉ refs → JsMap.get (bindings refs) sp = None.
Proof. apply get_imap_None. Qed.

Lemma get_bindings_Some (refs : list string) (sp : string) :
  sp ∈ refs → ∃ d, JsMap.get (bindings refs) sp = Some d.
Proof.
  intros Hin. apply list_elem_of_split_l in Hin as (r1 & r2 & -> & Hnot).
  eexists. apply get_imap_first, Hnot.
Qed.

(** The binding of a specifier is numbered by its rank of first reference. *)
Lemma bindingOf_first (r1 r2 : list string) (sp : string) :
  sp ∉ r1 → bindingOf (r1 ++ sp :: r2) sp = dependencyName (length r1).
Proof.
  intros Hnot. unfold bindingOf, bindings.
  now rewrite (get_imap_first dependencyName).
Qed.

(** A binding, once made, is never changed by later imports. *)
Lemma bindingOf_app (refs more : list string) (sp : string) :
  sp ∈ refs → bindingOf (refs ++ more) sp = bindingOf refs sp.
Proof.
  intros Hin. apply list_elem_of_split_l in Hin as (r1 & r2 & -> & Hnot).
  rewrite <- app_assoc. simpl. now rewrite !bindingOf_first.
Qed.

(** ** First references *)

Lemma noteSpecifier_extends (refs : list string) (sp : string) :
  ∃ more, noteSpecifier refs sp = refs ++ more.
Proof.
  unfold noteSpecifier. destruct (decide (sp ∈ refs)).
  - exists []. now rewrite app_nil_r.
  - now exists [sp].
Qed.

Lemma noteSpecifier_elem (refs : list string) (sp : string) :
  sp ∈ noteSpecifier refs sp.
Proof.
  unfold noteSpecifier. destruct (decide (sp ∈ refs)); [assumption|].
  apply elem_of_app. right. apply list_elem_of_singleton. reflexivity.
Qed.

Lemma firstReferences_extends (specs refs : list string) :
  ∃ more, foldl noteSpecifier refs specs = refs ++ more.
Proof.
  revert refs. induction specs as [|sp specs IH]; intros refs; simpl.
  - exists []. now rewrite app_nil_r.
  - destruct (noteSpecifier_extends refs sp) as [m1 ->].
    destruct (IH (refs ++ m1)) as [m2 ->].
    exists (m1 ++ m2). now rewrite app_assoc.
Qed.

Lemma firstReferences_elem (specs refs : list string) (sp : string) :
  sp ∈ refs ∨ sp ∈ specs → sp ∈ foldl noteSpecifier refs specs.
Proof.
  revert refs. induction specs as [|s specs IH]; intros refs [H|H]; simpl.
  - assumption.
  - now apply elem_of_nil in H.
  - apply IH. left.
    destruct (noteSpecifier_extends refs s) as [m ->].
    apply elem_of_app. now left.
  - apply IH. apply elem_of_cons in H as [->|H]; [left|now right].
    apply noteSpecifier_elem.
Qed.

Lemma noteSpecifier_NoDup (refs : list string) (sp : string) :
  NoDup refs → NoDup (noteSpecifier refs sp).
Proof.
  intros Hnd. unfold noteSpecifier. destruct (decide (sp ∈ refs)); [assumption|].
  apply NoDup_app. repeat split; [assumption | | apply NoDup_singleton].
  intros x Hx Hx'. apply list_elem_of_singleton in Hx'. now subst.
Qed.

Lemma firstReferences_NoDup_from (specs refs : list string) :
  NoDup refs → NoDup (foldl noteSpecifier refs specs).
Proof.
  revert refs. induction specs as [|s specs IH]; intros refs Hnd; simpl.
  - assumption.
  - apply IH, noteSpecifier_NoDup, Hnd.
Qed.

Lemma firstReferences_sound_from (specs refs : list string) (sp : string) :
  sp ∈ foldl noteSpecifier refs specs → sp ∈ refs ∨ sp ∈ specs.
Proof.
  revert refs. induction specs as [|s specs IH]; intros refs H; simpl in H.
  - now left.
  - apply IH in H as [H|H]; [|right; now apply elem_of_cons; right].
    unfold noteSpecifier in H. destruct (decide (s ∈ refs)); [now left|].
    apply elem_of_app in H as [H|H]; [now left|].
    apply list_elem_of_singleton in H as ->. right. apply elem_of_cons. now left.
Qed.

(** ** The synthesis loop *)

Lemma fragment_app (refs more : list string) (c : CSSModuleReference) :
  (∀ sp, sp ∈ specifierOf c → sp ∈ refs) →
  fragment (refs ++ more) c = fragment refs c.
Proof.
  destruct c as [n|n|n sp]; simpl; intros H; try reflexivity.
  rewrite bindingOf_app; [reflexivity|].
  apply H, list_elem_of_singleton. reflexivity.
Qed.

Lemma fragments_app (refs more : list string) (cs : list CSSModuleReference) :
  (∀ sp, sp ∈ flat_map specifierOf cs → sp ∈ refs) →
  map (fragment (refs ++ more)) cs = map (fragment refs) cs.
Proof.
  induction cs as [|c cs IH]; simpl; intros H; [reflexivity|].
  rewrite fragment_app, IH; [reflexivity| |].
  - intros sp Hsp. apply H, elem_of_app. now right.
  - intros sp Hsp. apply H, elem_of_app. now left.
Qed.

Lemma valueExpression_app (refs more : list string) (e : CSSModuleExport) :
  (∀ sp, sp ∈ flat_map specifierOf (compositionsOf e) → sp ∈ refs) →
  valueExpression (refs ++ more) e = valueExpression refs e.
Proof. intros H. unfold valueExpression. now rewrite fragments_app. Qed.

Lemma importDependency_at (refs : list string) (body sp : string) :
  importDependency sp (synthAt refs body)
  = (bindingOf (noteSpecifier refs sp) sp, synthAt (noteSpecifier refs sp) body).
Proof.
  unfold importDependency, noteSpecifier. cbn [dependencies contents synthAt].
  destruct (decide (sp ∈ refs)) as [Hin|Hnot].
  - destruct (get_bindings_Some refs sp Hin) as [d Hd].
    rewrite Hd. unfold bindingOf. now rewrite Hd.
  - pose proof (get_bindings_None refs sp Hnot) as Hd. rewrite Hd.
    rewrite bindingOf_first by assumption.
    replace (JsMap.size (bindings refs)) with (length refs)
      by (unfold JsMap.size, bindings; now rewrite length_imap).
    change ("dependency_" +:+ Js.numberToString (length refs))
      with (dependencyName (length refs)).
    f_equal. unfold synthAt. f_equal.
    + rewrite dependencyImports_snoc, rev_app_distr.
      cbn [rev app joinAll foldr]. unfold importStatement.
      now rewrite !append_assoc.
    + now rewrite JsMap_set_fresh, bindings_snoc.
Qed.

Lemma composeLoop_at (cs : list CSSModuleReference) (refs : list string)
    (cc body : string) :
  let refs' := foldl noteSpecifier refs (flat_map specifierOf cs) in
  foldl composeStep (cc, synthAt refs body) cs
  = (cc +:+ joinAll (map (fragment refs') cs), synthAt refs' body).
Proof.
  revert refs cc. induction cs as [|c cs IH]; intros refs cc; cbn zeta.
  - simpl. now rewrite append_nil_r.
  - cbn [foldl flat_map map joinAll foldr].
    rewrite foldl_app.
    destruct c as [n|n|n sp]; cbn [composeStep specifierOf foldl].
    + rewrite IH. cbn zeta. f_equal.
      cbn [fragment]. now rewrite !append_assoc.
    + rewrite IH. cbn zeta. f_equal.
      cbn [fragment]. now rewrite !append_assoc.
    + rewrite importDependency_at. rewrite IH. cbn zeta. f_equal.
      cbn [fragment].
      destruct (firstReferences_extends (flat_map specifierOf cs)
                  (noteSpecifier refs sp)) as [more ->].
      rewrite bindingOf_app by apply noteSpecifier_elem.
      now rewrite !append_assoc.
Qed.

Lemma compiledCssClassesOf_at (e : CSSModuleExport) (refs : list string)
    (body : string) :
  let refs' := foldl noteSpecifier refs (flat_map specifierOf (compositionsOf e)) in
  compiledCssClassesOf e (synthAt refs body)
  = (valueExpression refs' e, synthAt refs' body).
Proof.
  cbn zeta. unfold compiledCssClassesOf, valueExpression, compositionsOf.
  destruct (composes e) as [cs|]; cbn [default from_option id].
  - rewrite composeLoop_at. cbn zeta. now rewrite !append_assoc.
  - cbn [flat_map foldl map joinAll foldr]. now rewrite !append_assoc.
Qed.

Lemma specifiersOf_cons (entry : string * CSSModuleExport)
    (exports : CSSModuleExports) :
  specifiersOf (entry :: exports)
  = flat_map specifierOf (compositionsOf entry.2) ++ specifiersOf exports.
Proof. reflexivity. Qed.

Lemma appendContents_at (refs : list string) (body text : string) :
  appendContents (synthAt refs body) text = synthAt refs (body +:+ text).
Proof.
  unfold appendContents, synthAt. cbn [contents dependencies].
  now rewrite append_assoc.
Qed.

Lemma exportStep_at (refs : list string) (body : string)
    (entry : string * CSSModuleExport) :
  let refs' :=
    foldl noteSpecifier refs (flat_map specifierOf (compositionsOf entry.2)) in
  exportStep (synthAt refs body) entry
  = synthAt refs'
      (body +:+ propertyText (camelCase entry.1, valueExpression refs' entry.2)).
Proof.
  cbn zeta. destruct entry as [rn e]. unfold exportStep.
  rewrite compiledCssClassesOf_at. cbn zeta.
  unfold synthAt, propertyText. cbn [contents dependencies fst snd].
  f_equal. now rewrite !append_assoc.
Qed.

Lemma exportLoop_at (exports : CSSModuleExports) (refs : list string)
    (body : string) :
  let refs' := foldl noteSpecifier refs (specifiersOf exports) in
  foldl exportStep (synthAt refs body) exports
  = synthAt refs'
      (body +:+ joinAll (map propertyText
                          (exportProperties refs' exports))).
Proof.
  revert refs body. induction exports as [|entry exports IH];
    intros refs body; cbn zeta.
  - cbn [foldl specifiersOf flat_map exportProperties map joinAll foldr].
    now rewrite append_nil_r.
  - cbn [foldl]. rewrite exportStep_at. cbn zeta. rewrite IH. cbn zeta.
    rewrite specifiersOf_cons, foldl_app.
    set (r1 := foldl noteSpecifier refs
                 (flat_map specifierOf (compositionsOf entry.2))).
    destruct (firstReferences_extends (specifiersOf exports) r1) as [more Hm].
    rewrite Hm. f_equal.
    cbn [exportProperties map joinAll foldr].
    rewrite valueExpression_app.
    + now rewrite !append_assoc.
    + intros sp Hsp. apply firstReferences_elem. now right.
Qed.

(** The text of the synthetic module is the concatenation of its
    statements: the dependency imports, latest first reference on top,
    the import of the stylesheet, the export statement and the marker. *)
Lemma synthesize_layout (id : string) (exports : CSSModuleExports) :
  synthesize id exports
  = joinAll (emittedStatements id exports).
Proof.
  unfold synthesize, emittedStatements.
  change {| contents := EmptyString; dependencies := [] |}
    with (synthAt [] EmptyString).
  rewrite !appendContents_at, exportLoop_at. cbn zeta.
  rewrite !appendContents_at. unfold firstReferences.
  set (refs := foldl noteSpecifier [] (specifiersOf exports)).
  unfold synthAt. cbn [contents].
  rewrite joinAll_app. f_equal.
  cbn [joinAll foldr]. unfold exportStatement, primaryImport, sourceMapMarker.
  rewrite !append_assoc, append_nil_r. reflexivity.
Qed.

Lemma firstReferences_NoDup (specs : list string) : NoDup (firstReferences specs).
Proof. apply firstReferences_NoDup_from, NoDup_nil_2. Qed.

Lemma firstReferences_spec (specs : list string) (sp : string) :
  sp ∈ firstReferences specs ↔ sp ∈ specs.
Proof.
  split; intros H.
  - apply firstReferences_sound_from in H as [H|H]; [|assumption].
    now apply elem_of_nil in H.
  - apply firstReferences_elem. now right.
Qed.

Lemma bindingOf_lookup (refs : list string) (i : nat) (sp : string) :
  NoDup refs → refs !! i = Some sp → bindingOf refs sp = dependencyName i.
Proof.
  intros Hnd Hi.
  pose proof (take_drop_middle refs i sp Hi) as Hsplit.
  rewrite <- Hsplit in Hnd. apply NoDup_app in Hnd as (_ & Hdisj & _).
  rewrite <- Hsplit. rewrite bindingOf_first.
  - f_equal. rewrite length_take. apply lookup_lt_Some in Hi. lia.
  - intros Hin. apply (Hdisj sp Hin). apply elem_of_cons. now left.
Qed.

Lemma dependencyImports_lookup (refs : list string) (i : nat) (sp : string) :
  refs !! i = Some sp →
  dependencyImports refs !! i = Some (importStatement (dependencyName i) sp).
Proof.
  intros Hi. unfold dependencyImports. rewrite list_lookup_imap, Hi. reflexivity.
Qed.

(** ** The order of the statements *)

(** C1, as the code has it: for every export table with at least one
    Dependency composition, the module text is, in this order, the
    dependency imports with the latest first reference on top (each import is
    prepended when its specifier is first met), then the import of the
    primary stylesheet, then the export statement, then the source-map
    marker; in particular the text opens with a dependency import. *)
Theorem C1_imports_prepended (id : string) (exports : CSSModuleExports) :
  specifiersOf exports ≠ [] →
  let refs := firstReferences (specifiersOf exports) in
  synthesize id exports
  = joinAll (rev (dependencyImports refs)
               ++ [primaryImport id;
                   exportStatement (exportProperties refs exports);
                   sourceMapMarker])
  ∧ ∃ sp earlier,
      refs = earlier ++ [sp]
      ∧ rev (dependencyImports refs)
        = importStatement (dependencyName (length earlier)) sp
            :: rev (dependencyImports earlier).
Proof.
  intros Hdep refs. split; [apply synthesize_layout|].
  destruct (specifiersOf exports) as [|s specs] eqn:Hs; [congruence|].
  assert (Hne : refs ≠ []).
  { intros Hnil. assert (Hin : s ∈ refs).
    { apply firstReferences_spec, elem_of_cons. now left. }
    rewrite Hnil in Hin. now apply elem_of_nil in Hin. }
  destruct (exists_last Hne) as (earlier & sp & Hlast).
  exists sp, earlier. split; [assumption|].
  rewrite Hlast, dependencyImports_snoc, rev_app_distr. reflexivity.
Qed.

(** ** Escaping *)

Ltac each_character c :=
  destruct c as [[] [] [] [] [] [] [] []].

Lemma scan_quoteJSONChar (c : ascii) (rest : string) :
  c ≠ Js.SQ →
  scanSingleQuoted (Js.quoteJSONChar c +:+ rest) = scanSingleQuoted rest.
Proof. intros Hc. each_character c; first [reflexivity | now destruct Hc]. Qed.

(** The escaped form of a name without apostrophe is inert in a
    single-quoted literal: it neither closes nor cuts the literal. *)
Lemma escape_inert_without_apostrophe (s : string) :
  occurs Js.SQ s = false → inertInLiteral (escape s).
Proof.
  intros Hs rest. rewrite escape_body.
  induction s as [|c s IH]; [reflexivity|].
  cbn [occurs] in Hs. apply orb_false_iff in Hs as [Hc Hs].
  cbn [Js.quoteJSONBody]. rewrite append_assoc, scan_quoteJSONChar.
  - apply IH, Hs.
  - intros ->. discriminate Hc.
Qed.

(** With an apostrophe in the name, the literal ends at the first one. *)
Lemma escape_closes_at_apostrophe (s : string) :
  occurs Js.SQ s = true →
  ∃ outside, ∀ rest,
    scanSingleQuoted (escape s +:+ rest) = Some (outside +:+ rest).
Proof.
  rewrite escape_body. induction s as [|c s IH]; [discriminate|].
  cbn [occurs Js.quoteJSONBody]. intros Hs.
  destruct (Ascii.eqb c Js.SQ) eqn:Hc.
  - apply Ascii.eqb_eq in Hc as ->. exists (Js.quoteJSONBody s).
    intros rest. reflexivity.
  - destruct (IH Hs) as [outside Hout]. exists outside. intros rest.
    rewrite append_assoc, scan_quoteJSONChar; [apply Hout|].
    intros ->. discriminate Hc.
Qed.

(** X3: the escaped name stays inside the single-quoted literal the code
    puts it in exactly when the name has no apostrophe; line feeds, carriage
    returns, backslashes and double quotes in a name do no harm. *)
Lemma escape_inert_iff (s : string) :
  inertInLiteral (escape s) ↔ occurs Js.SQ s = false.
Proof.
  split; [|apply escape_inert_without_apostrophe].
  intros Hinert. destruct (occurs Js.SQ s) eqn:Hs; [|reflexivity].
  destruct (escape_closes_at_apostrophe s Hs) as [outside Hout].
  specialize (Hinert EmptyString). rewrite Hout in Hinert. discriminate Hinert.
Qed.

Lemma stringValue_quoteJSONChar (c : ascii) (rest : string) :
  stringValue (Js.quoteJSONChar c +:+ rest) = String c <$> stringValue rest.
Proof. each_character c; reflexivity. Qed.

(** Reading back the escapes of [escape] gives the name again. *)
Lemma stringValue_escape (s : string) : stringValue (escape s) = Some s.
Proof.
  rewrite escape_body. induction s as [|c s IH]; [reflexivity|].
  cbn [Js.quoteJSONBody]. rewrite stringValue_quoteJSONChar, IH. reflexivity.
Qed.

(** A literal made of an escaped name without apostrophe ends at the quote
    the code writes after it. *)
Lemma literal_closed_at_its_quote (s rest : string) :
  occurs Js.SQ s = false →
  scanSingleQuoted (escape s +:+ Js.str Js.SQ +:+ rest) = Some rest.
Proof.
  intros Hs. rewrite (escape_inert_without_apostrophe s Hs). reflexivity.
Qed.

(** C2 at a compiled name with an apostrophe: [escape] keeps the apostrophe
    as it is, so the single-quoted literal the code opens before the name is
    closed by it after [x], and the rest of the name is left outside the
    literal. *)
Theorem C2_apostrophe_ends_literal (s : Synth) :
  compiledCssClassesOf {| name := "x'y"; composes := None |} s
  = (Js.str Js.SQ +:+ "x'y" +:+ Js.str Js.SQ, s)
  ∧ scanSingleQuoted ("x'y" +:+ Js.str Js.SQ) = Some ("y" +:+ Js.str Js.SQ)
  ∧ ¬ inertInLiteral (escape "x'y").
Proof.
  split; [reflexivity|]. split; [reflexivity|].
  intros H. specialize (H EmptyString). discriminate H.
Qed.

(** ** The exported object *)

Lemma evalObjectLiteral_from {V} (props : list (string * V)) (m : gmap string V) :
  foldl (λ obj p, <[p.1 := p.2]> obj) m props = evalObjectLiteral props ∪ m.
Proof.
  unfold evalObjectLiteral. revert m.
  induction props as [|p props IH]; intros m; cbn [foldl].
  - now rewrite (left_id_L ∅ (∪)).
  - rewrite IH, (IH (<[p.1:=p.2]> ∅)).
    rewrite <- (assoc_L (∪)). f_equal.
    rewrite <- insert_union_l. now rewrite (left_id_L ∅ (∪)).
Qed.

Lemma evalObjectLiteral_app {V} (l1 l2 : list (string * V)) :
  evalObjectLiteral (l1 ++ l2) = evalObjectLiteral l2 ∪ evalObjectLiteral l1.
Proof.
  unfold evalObjectLiteral at 1. rewrite foldl_app.
  apply evalObjectLiteral_from.
Qed.

Lemma evalObjectLiteral_cons {V} (p : string * V) (l : list (string * V)) :
  evalObjectLiteral (p :: l) = evalObjectLiteral l ∪ {[p.1 := p.2]}.
Proof.
  change (p :: l) with ([p] ++ l). rewrite evalObjectLiteral_app.
  reflexivity.
Qed.

Lemma evalObjectLiteral_unused {V} (props : list (string * V)) (k : string) :
  Forall (λ p, p.1 ≠ k) props → evalObjectLiteral props !! k = None.
Proof.
  induction 1 as [|p props Hp _ IH]; [apply lookup_empty|].
  rewrite evalObjectLiteral_cons, lookup_union_r by assumption.
  now apply lookup_singleton_ne.
Qed.

(** A property is redefined by a later property of the same key: leaving
    the earlier one out does not change the object. *)
Lemma evalObjectLiteral_shadowed {V} (l1 l2 l3 : list (string * V)) k v1 v2 :
  evalObjectLiteral (l1 ++ (k, v1) :: l2 ++ (k, v2) :: l3)
  = evalObjectLiteral (l1 ++ l2 ++ (k, v2) :: l3).
Proof.
  rewrite !evalObjectLiteral_app, !evalObjectLiteral_cons.
  rewrite !evalObjectLiteral_app, !evalObjectLiteral_cons. cbn [fst snd].
  apply map_eq. intros j.
  destruct (decide (j = k)) as [->|Hne].
  - rewrite !lookup_union, !lookup_singleton_eq.
    destruct (evalObjectLiteral l3 !! k), (evalObjectLiteral l2 !! k),
      (evalObjectLiteral l1 !! k); reflexivity.
  - rewrite !lookup_union, !lookup_singleton_ne by congruence.
    destruct (evalObjectLiteral l3 !! j), (evalObjectLiteral l2 !! j),
      (evalObjectLiteral l1 !! j); reflexivity.
Qed.

Lemma evalObjectLiteral_last {V} (l1 l3 : list (string * V)) k v :
  Forall (λ p, p.1 ≠ k) l3 →
  evalObjectLiteral (l1 ++ (k, v) :: l3) !! k = Some v.
Proof.
  intros H3. rewrite evalObjectLiteral_app, evalObjectLiteral_cons.
  rewrite !lookup_union, (evalObjectLiteral_unused l3 k H3).
  cbn [fst snd]. rewrite lookup_singleton_eq.
  now destruct (evalObjectLiteral l1 !! k).
Qed.

(** ** The load hooks *)

(** The [Cached] then [Synthesized] path of the hook. *)
Lemma onLoad_synthesized (options : Options)
    (bundle : string -> Completion TransformResult) (st : PluginState)
    (path : string) (rslt : TransformResult) (exports : CSSModuleExports) :
  excluded options path = false →
  bundle path = Normal rslt →
  rslt_exports rslt = Some exports →
  onLoad options bundle st path
  = (Normal (Some {| res_contents := synthesize (virtualId path) exports;
                     res_loader := "js";
                     res_resolveDir := None |}),
     cacheSet st (virtualId path)
       {| code := finalCode rslt; resolveDir := dirname path |}).
Proof.
  intros Hex Hb He. unfold onLoad. now rewrite Hex, Hb, He.
Qed.

(** The hook writes the cache on that path only. *)
Lemma onLoad_cache (options : Options)
    (bundle : string -> Completion TransformResult) (st : PluginState)
    (path : string) :
  transpiledCssModulesMap (onLoad options bundle st path).2
  = transpiledCssModulesMap st
  ∨ (∃ result entry,
       (onLoad options bundle initialState path).1 = Normal (Some result)
       ∧ transpiledCssModulesMap (onLoad options bundle st path).2
         = <[virtualId path := entry]> (transpiledCssModulesMap st)).
Proof.
  unfold onLoad.
  destruct (excluded options path); [now left|].
  destruct (bundle path) as [rslt|err]; [|now left].
  destruct (rslt_exports rslt) as [exports|]; [|now left].
  right. eexists _, _. split; reflexivity.
Qed.

(** C4: when the transform of [path] succeeds with an export table, the
    file hook caches the stylesheet under the identity of [path], and the
    virtual hook, asked for that identity afterwards, returns the cached
    content (the compiled text followed by the source-map comment) and
    the cached base directory (the directory of [path]). *)
Theorem C4_cache_round_trip (options : Options) (initialOptions : InitialOptions)
    (bundle : string -> Completion TransformResult) (st : PluginState)
    (path : string) (rslt : TransformResult) (exports : CSSModuleExports) :
  excluded options path = false →
  bundle path = Normal rslt →
  rslt_exports rslt = Some exports →
  let st' := (onLoad options bundle st path).2 in
  let content :=
    toString_utf8 (rslt_code rslt)
      +:+ "/*# sourceMappingURL=data:application/json;base64,"
      +:+ toString_base64 (rslt_map rslt) +:+ " */" in
  transpiledCssModulesMap st' !! virtualId path
  = Some {| code := content; resolveDir := dirname path |}
  ∧ onLoadVirtual initialOptions st' (virtualId path)
    = Normal {| res_contents := content;
                res_loader :=
                  default "css" (l ← loader initialOptions; l !! ".css");
                res_resolveDir := Some (dirname path) |}.
Proof.
  intros Hex Hb He st' content. unfold st'.
  rewrite (onLoad_synthesized _ _ _ _ _ _ Hex Hb He). cbn [snd].
  unfold onLoadVirtual, cacheSet. cbn [transpiledCssModulesMap].
  rewrite lookup_insert_eq. split; reflexivity.
Qed.

(** C5: when [bundle] throws, the hook logs the failure with the error,
    throws that same error, hands no module back, and leaves the cache as
    it was. *)
Theorem C5_failed_transform (options : Options)
    (bundle : string -> Completion TransformResult) (st : PluginState)
    (path : string) (err : JsError) :
  excluded options path = false →
  bundle path = Throw err →
  let '(outcome, st') := onLoad options bundle st path in
  outcome = Throw err
  ∧ transpiledCssModulesMap st' = transpiledCssModulesMap st
  ∧ console st' = console st ++ [("lightning css bundling failed:", err)].
Proof.
  intros Hex Hb. unfold onLoad. rewrite Hex, Hb.
  repeat split.
Qed.

Lemma run_snoc (requests : list Request) (r : Request) :
  run (requests ++ [r]) = serve (run requests) r.
Proof. unfold run. now rewrite foldl_app. Qed.

(** Every key of the cache was issued by a request of the build. *)
Lemma cache_keys_issued (requests : list Request) (id : string) :
  is_Some (transpiledCssModulesMap (run requests) !! id) →
  Exists (λ r, issues r id) requests.
Proof.
  induction requests as [|r requests IH] using rev_ind; intros Hsome.
  - cbn in Hsome. rewrite lookup_empty in Hsome. now destruct Hsome.
  - rewrite run_snoc in Hsome. apply Exists_app.
    destruct r as [options bundle path|path]; cbn [serve] in Hsome.
    + destruct (onLoad_cache options bundle (run requests) path)
        as [Hsame|(result & entry & Hout & Hset)].
      * rewrite Hsame in Hsome. left. now apply IH.
      * rewrite Hset in Hsome.
        destruct (decide (virtualId path = id)) as [Heq|Hne].
        -- right. apply Exists_cons_hd. cbn [issues].
           split; [exact Heq | now exists result].
        -- rewrite lookup_insert_ne in Hsome by exact Hne.
           left. now apply IH.
    + left. now apply IH.
Qed.

(** C6: after any build in which no request issued the identity [id], the
    virtual hook asked for [id] throws; it returns no content.  Each file
    request of the build carries the exclude filter as it answered on that
    call, so a path excluded on one call and loaded on a later one has
    issued its identity. *)
Theorem C6_unregistered_identity (initialOptions : InitialOptions)
    (requests : list Request) (id : string) :
  Forall (λ r, ¬ issues r id) requests →
  onLoadVirtual initialOptions (run requests) id = Throw TypeError.
Proof.
  intros Hnever. unfold onLoadVirtual.
  destruct (transpiledCssModulesMap (run requests) !! id)
    as [entry|] eqn:Hlookup; [|reflexivity].
  exfalso.
  assert (Hex : Exists (λ r, issues r id) requests)
    by (apply cache_keys_issued; rewrite Hlookup; eauto).
  apply Exists_exists in Hex as (r & Hin & Hr).
  rewrite Forall_forall in Hnever. exact (Hnever r Hin Hr).
Qed.

(** ** The virtual identity *)

(** C9: the identity under which the hook caches the stylesheet of [path],
    and which the synthetic module imports, is the fixed prefix, the digest
    of [path] and the suffix [.css]; two runs of the hook on [path], from
    any two states and with any two successful transforms, use that same
    identity. *)
Theorem C9_identity_of_path (options1 options2 : Options)
    (bundle1 bundle2 : string -> Completion TransformResult)
    (st1 st2 : PluginState) (path : string)
    (rslt1 rslt2 : TransformResult) (exports1 exports2 : CSSModuleExports) :
  excluded options1 path = false →
  excluded options2 path = false →
  bundle1 path = Normal rslt1 →
  bundle2 path = Normal rslt2 →
  rslt_exports rslt1 = Some exports1 →
  rslt_exports rslt2 = Some exports2 →
  let id := "css-modules://" +:+ sha256_base64url path +:+ ".css" in
  virtualId path = id
  ∧ onLoad options1 bundle1 st1 path
    = (Normal (Some {| res_contents := synthesize id exports1;
                       res_loader := "js";
                       res_resolveDir := None |}),
       cacheSet st1 id {| code := finalCode rslt1; resolveDir := dirname path |})
  ∧ onLoad options2 bundle2 st2 path
    = (Normal (Some {| res_contents := synthesize id exports2;
                       res_loader := "js";
                       res_resolveDir := None |}),
       cacheSet st2 id {| code := finalCode rslt2; resolveDir := dirname path |}).
Proof.
  intros Hex1 Hex2 Hb1 Hb2 He1 He2 id.
  split; [reflexivity|]. split.
  - apply (onLoad_synthesized _ _ _ _ _ _ Hex1 Hb1 He1).
  - apply (onLoad_synthesized _ _ _ _ _ _ Hex2 Hb2 He2).
Qed.

(** ** Tables without entries *)



(** ** The two quoting helpers *)

Lemma scanDouble_quoteJSONChar (c : ascii) (rest : string) :
  scanDoubleQuoted (Js.quoteJSONChar c +:+ rest) = scanDoubleQuoted rest.
Proof. each_character c; reflexivity. Qed.

Lemma scanDouble_quoteJSONBody (s rest : string) :
  scanDoubleQuoted (Js.quoteJSONBody s +:+ rest) = scanDoubleQuoted rest.
Proof.
  induction s as [|c s IH]; [reflexivity|].
  cbn [Js.quoteJSONBody]. now rewrite append_assoc, scanDouble_quoteJSONChar.
Qed.

(** X1: [quote], unlike [escape] in its single quotes, is safe for every
    string: the text it returns is one double-quoted literal, closed by its
    own last quote whatever follows, and the literal's value is the string
    quoted. *)
Theorem quote_one_literal (s rest : string) :
  quote s +:+ rest = String Js.DQ (escape s +:+ Js.str Js.DQ +:+ rest)
  ∧ scanDoubleQuoted (escape s +:+ Js.str Js.DQ +:+ rest) = Some rest
  ∧ stringValue (escape s) = Some s.
Proof.
  rewrite escape_body. split; [|split].
  - unfold quote, Js.JSON_stringify. cbn [String.append].
    now rewrite append_assoc.
  - rewrite scanDouble_quoteJSONBody. reflexivity.
  - rewrite <- escape_body. apply stringValue_escape.
Qed.

Lemma quoteJSONChar_plain (c : ascii) :
  plainChar c = true → Js.quoteJSONChar c = Js.str c.
Proof. intros H. each_character c; first [reflexivity | discriminate H]. Qed.

Lemma quoteJSONChar_longer (c : ascii) :
  String.length (Js.str c) + (if plainChar c then 0 else 1)
  ≤ String.length (Js.quoteJSONChar c).
Proof. each_character c; vm_compute; lia. Qed.

Lemma quoteJSONBody_longer (s : string) :
  String.length s + (if allPlain s then 0 else 1)
  ≤ String.length (Js.quoteJSONBody s).
Proof.
  induction s as [|c s IH]; [cbn; lia|].
  cbn [Js.quoteJSONBody allPlain String.length]. rewrite length_append.
  pose proof (quoteJSONChar_longer c) as Hc. cbn [String.length Js.str] in Hc.
  destruct (plainChar c), (allPlain s); cbn [andb] in *; lia.
Qed.

(** X2: [escape] returns a name as it is exactly when the name is made of
    plain characters; any other name comes back strictly longer, and no
    name comes back shorter. *)
Theorem escape_identity_iff (s : string) :
  (escape s = s ↔ allPlain s = true)
  ∧ (allPlain s = false → String.length s < String.length (escape s))
  ∧ String.length s ≤ String.length (escape s).
Proof.
  rewrite escape_body. split; [split|split].
  - intros Heq. pose proof (quoteJSONBody_longer s) as Hlen.
    rewrite Heq in Hlen. destruct (allPlain s); [reflexivity | lia].
  - induction s as [|c s IH]; [reflexivity|].
    cbn [allPlain Js.quoteJSONBody]. intros H.
    apply andb_true_iff in H as [Hc Hs].
    now rewrite (quoteJSONChar_plain c Hc), (IH Hs).
  - intros Hnot. pose proof (quoteJSONBody_longer s) as Hlen.
    rewrite Hnot in Hlen. lia.
  - pose proof (quoteJSONBody_longer s). lia.
Qed.

(** ** Importing a dependency, on any state *)

Lemma JsMap_get_set_eq {V} (m : JsMap.t V) k v :
  JsMap.get (JsMap.set m k v) k = Some v.
Proof.
  induction m as [|[k' v'] m IH]; cbn [JsMap.set JsMap.get].
  - now destruct (decide (k = k)).
  - destruct (decide (k' = k)) as [->|Hne]; cbn [JsMap.get].
    + now destruct (decide (k = k)).
    + now destruct (decide (k' = k)).
Qed.

Lemma JsMap_get_set_ne {V} (m : JsMap.t V) k q v :
  q ≠ k → JsMap.get (JsMap.set m k v) q = JsMap.get m q.
Proof.
  intros Hq. induction m as [|[k' v'] m IH]; cbn [JsMap.set JsMap.get].
  - destruct (decide (k = q)); [congruence | reflexivity].
  - destruct (decide (k' = k)) as [->|Hne]; cbn [JsMap.get].
    + destruct (decide (k = q)); [congruence | reflexivity].
    + destruct (decide (k' = q)); [reflexivity | exact IH].
Qed.

(** X4: asking twice for the same specifier gives the same binding, and
    the second call changes nothing: neither a second import nor a new entry. *)
Theorem importDependency_idempotent (path : string) (s : Synth) :
  importDependency path (importDependency path s).2 = importDependency path s.
Proof.
  unfold importDependency.
  destruct (JsMap.get (dependencies s) path) as [d|] eqn:Hget; cbn [snd].
  - now rewrite Hget.
  - cbn [dependencies]. now rewrite JsMap_get_set_eq.
Qed.

(** X5: a call records the binding it returns, keeps every binding made
    before, touches no other specifier, and only ever adds text in front
    of [contents]. *)
Theorem importDependency_records (path : string) (s : Synth) :
  let s' := (importDependency path s).2 in
  JsMap.get (dependencies s') path = Some (importDependency path s).1
  ∧ (∀ q d, JsMap.get (dependencies s) q = Some d →
            JsMap.get (dependencies s') q = Some d)
  ∧ (∀ q, q ≠ path →
          JsMap.get (dependencies s') q = JsMap.get (dependencies s) q)
  ∧ ∃ front, contents s' = front +:+ contents s.
Proof.
  unfold importDependency.
  destruct (JsMap.get (dependencies s) path) as [d|] eqn:Hget;
    cbn [fst snd dependencies contents].
  - repeat split; [assumption | auto | now exists EmptyString].
  - split; [apply JsMap_get_set_eq|]. split; [|split].
    + intros q d Hq. rewrite JsMap_get_set_ne; [assumption|]. congruence.
    + intros q Hq. now apply JsMap_get_set_ne.
    + eexists. rewrite <- !append_assoc. reflexivity.
Qed.

(** ** Tables without dependencies *)

Lemma joinAll_cons (x : string) (l : list string) :
  joinAll (x :: l) = x +:+ joinAll l.
Proof. reflexivity. Qed.

Lemma fragments_literal (refs : list string) (cs : list CSSModuleReference) :
  flat_map specifierOf cs = [] →
  joinAll (map (fragment refs) cs)
  = escape (joinAll (map (λ c, " " +:+ compositionName c) cs)).
Proof.
  induction cs as [|c cs IH]; [reflexivity|].
  cbn [flat_map map]. intros H.
  apply app_eq_nil in H as [Hc Hcs].
  rewrite !joinAll_cons, escape_app, (IH Hcs).
  destruct c as [n|n|n sp]; [| |discriminate Hc];
    cbn [fragment compositionName]; now rewrite escape_app, escape_space.
Qed.

Lemma valueExpression_literal (refs : list string) (e : CSSModuleExport) :
  flat_map specifierOf (compositionsOf e) = [] →
  valueExpression refs e
  = Js.str Js.SQ +:+ escape (spaceJoined e) +:+ Js.str Js.SQ.
Proof.
  intros H. unfold valueExpression, spaceJoined.
  now rewrite escape_app, (fragments_literal refs _ H), !append_assoc.
Qed.

Lemma exportProperties_literal (refs : list string) (exports : CSSModuleExports) :
  specifiersOf exports = [] →
  exportProperties refs exports
  = map (λ entry, (camelCase entry.1,
                   Js.str Js.SQ +:+ escape (spaceJoined entry.2) +:+ Js.str Js.SQ))
      exports.
Proof.
  induction exports as [|entry exports IH]; [reflexivity|].
  rewrite specifiersOf_cons. intros H. apply app_eq_nil in H as [He Hrest].
  cbn [exportProperties map]. rewrite (valueExpression_literal refs _ He).
  f_equal. exact (IH Hrest).
Qed.


(** ** The cache and the console over a build *)

(** The four ways the file hook ends. *)
Lemma onLoad_cases (options : Options)
    (bundle : string -> Completion TransformResult) (st : PluginState)
    (path : string) :
  (excluded options path = true ∧ onLoad options bundle st path = (Normal None, st))
  ∨ (excluded options path = false
     ∧ ∃ err, bundle path = Throw err
         ∧ onLoad options bundle st path
           = (Throw err, consoleLog st "lightning css bundling failed:" err))
  ∨ (excluded options path = false
     ∧ ∃ rslt, bundle path = Normal rslt ∧ rslt_exports rslt = None
         ∧ onLoad options bundle st path = (Normal None, st))
  ∨ (excluded options path = false
     ∧ ∃ rslt exports, bundle path = Normal rslt
         ∧ rslt_exports rslt = Some exports
         ∧ onLoad options bundle st path
           = (Normal (Some {| res_contents := synthesize (virtualId path) exports;
                              res_loader := "js";
                              res_resolveDir := None |}),
              cacheSet st (virtualId path)
                {| code := finalCode rslt; resolveDir := dirname path |})).
Proof.
  unfold onLoad. destruct (excluded options path); [now left|].
  right. destruct (bundle path) as [rslt|err] eqn:Hb.
  - destruct (rslt_exports rslt) as [exports|] eqn:He.
    + right. right. split; [reflexivity|]. now exists rslt, exports.
    + right. left. split; [reflexivity|]. now exists rslt.
  - left. split; [reflexivity|]. now exists err.
Qed.

(** X7: one call of the file hook touches no cache entry but the one of
    its own path's identity, removes none, and writes none unless it hands a
    module back. *)
Theorem onLoad_cache_frame (options : Options)
    (bundle : string -> Completion TransformResult) (st : PluginState)
    (path : string) :
  let outcome := (onLoad options bundle st path).1 in
  let st' := (onLoad options bundle st path).2 in
  (∀ id, id ≠ virtualId path →
         transpiledCssModulesMap st' !! id = transpiledCssModulesMap st !! id)
  ∧ (∀ id, is_Some (transpiledCssModulesMap st !! id) →
           is_Some (transpiledCssModulesMap st' !! id))
  ∧ ((∀ result, outcome ≠ Normal (Some result)) →
     transpiledCssModulesMap st' = transpiledCssModulesMap st)
  ∧ (∀ result, outcome = Normal (Some result) →
               is_Some (transpiledCssModulesMap st' !! virtualId path)).
Proof.
  cbn zeta.
  destruct (onLoad_cases options bundle st path)
    as [[_ ->]|[[_ (err & _ & ->)]|[[_ (rslt & _ & _ & ->)]
                                   |[_ (rslt & exports & _ & _ & ->)]]]];
    cbn [fst snd consoleLog cacheSet transpiledCssModulesMap];
    repeat split; try discriminate; auto.
  - intros id Hid. now apply lookup_insert_ne.
  - intros id Hsome. destruct (decide (virtualId path = id)) as [<-|Hne].
    + rewrite lookup_insert_eq. eauto.
    + now rewrite lookup_insert_ne.
  - intros Hnot. now destruct (Hnot _ eq_refl).
  - intros result _. rewrite lookup_insert_eq. eauto.
Qed.

(** The file hook removes no entry of the cache. *)
Lemma onLoad_keeps_entries (options : Options)
    (bundle : string -> Completion TransformResult) (st : PluginState)
    (path id : string) :
  is_Some (transpiledCssModulesMap st !! id) →
  is_Some (transpiledCssModulesMap (onLoad options bundle st path).2 !! id).
Proof.
  intros Hsome.
  destruct (onLoad_cases options bundle st path)
    as [[_ ->]|[[_ (err & _ & ->)]|[[_ (rslt & _ & _ & ->)]
                                   |[_ (rslt & exports & _ & _ & ->)]]]];
    cbn [snd consoleLog cacheSet transpiledCssModulesMap]; try assumption.
  destruct (decide (virtualId path = id)) as [<-|Hne].
  - rewrite lookup_insert_eq. eauto.
  - now rewrite lookup_insert_ne.
Qed.

(** X8: over a build no cached stylesheet is ever dropped: what a prefix of the
    requests has cached is still cached after the rest, whatever the
    exclude filter and the transform answer on the later calls. *)
Theorem cache_only_grows (requests more : list Request) (id : string) :
  is_Some (transpiledCssModulesMap (run requests) !! id) →
  is_Some (transpiledCssModulesMap (run (requests ++ more)) !! id).
Proof.
  induction more as [|r more IH] using rev_ind; intros Hsome.
  - now rewrite app_nil_r.
  - rewrite app_assoc, run_snoc. specialize (IH Hsome).
    destruct r as [options bundle path|path]; cbn [serve]; [|exact IH].
    now apply onLoad_keeps_entries.
Qed.

(** X10: what the console holds after a build: one line per file request
    that the exclude filter let through on that call and whose transform
    threw, in the order of the requests, each with the error that was
    thrown, and nothing else. *)
Theorem console_of_build (requests : list Request) :
  console (run requests) = flat_map failureLog requests.
Proof.
  induction requests as [|r requests IH] using rev_ind; [reflexivity|].
  rewrite run_snoc, flat_map_app. cbn [flat_map]. rewrite app_nil_r, <- IH.
  destruct r as [options bundle path|path]; cbn [serve failureLog];
    [|now rewrite app_nil_r].
  destruct (onLoad_cases options bundle (run requests) path)
    as [[Hex ->]|[[Hex (err & Hb & ->)]|[[Hex (rslt & Hb & _ & ->)]
                                        |[Hex (rslt & exports & Hb & _ & ->)]]]];
    rewrite Hex, ?Hb; cbn [snd consoleLog cacheSet console];
    now rewrite ?app_nil_r.
Qed.

Lemma not_issues_unless_module (options : Options)
    (bundle : string -> Completion TransformResult) (st : PluginState)
    (path id : string) :
  (∀ result, (onLoad options bundle st path).1 ≠ Normal (Some result)) →
  ¬ issues (LoadFile options bundle path) id.
Proof.
  intros Hnot [_ [result Hres]].
  destruct (onLoad_cases options bundle st path)
    as [[Hex Hst]|[[Hex (err & Hb & Hst)]|[[Hex (rslt & Hb & He & Hst)]
                                          |[Hex (rslt & exports & Hb & He & Hst)]]]];
    destruct (onLoad_cases options bundle initialState path)
      as [[Hex' Hi]|[[Hex' (err' & Hb' & Hi)]|[[Hex' (rslt' & Hb' & He' & Hi)]
                                            |[Hex' (rslt' & exports' & Hb' & He' & Hi)]]]];
    rewrite Hi in Hres; cbn [fst] in Hres; try discriminate Hres;
    try congruence.
  rewrite Hst in Hnot. now destruct (Hnot _ eq_refl).
Qed.

(** X9: a cached stylesheet is the one of the latest successful transform
    of its path: the build has a file request that the exclude filter let
    through on that call and that produced this very entry, and no later
    request issued the identity again.  Requests that were excluded, failed
    or returned no exports in between left the entry in place. *)
Theorem cache_latest_transform (requests : list Request) (id : string)
    (entry : TranspiledCssModule) :
  transpiledCssModulesMap (run requests) !! id = Some entry →
  ∃ before options bundle path rslt exports after,
    requests = before ++ LoadFile options bundle path :: after
    ∧ excluded options path = false
    ∧ bundle path = Normal rslt
    ∧ rslt_exports rslt = Some exports
    ∧ virtualId path = id
    ∧ entry = {| code := finalCode rslt; resolveDir := dirname path |}
    ∧ Forall (λ r, ¬ issues r id) after.
Proof.
  induction requests as [|r requests IH] using rev_ind; intros Hentry.
  - cbn in Hentry. now rewrite lookup_empty in Hentry.
  - rewrite run_snoc in Hentry.
    assert (Hkeep :
      transpiledCssModulesMap (run requests) !! id = Some entry →
      ¬ issues r id →
      ∃ before options bundle path rslt exports after,
        requests ++ [r] = before ++ LoadFile options bundle path :: after
        ∧ excluded options path = false
        ∧ bundle path = Normal rslt
        ∧ rslt_exports rslt = Some exports
        ∧ virtualId path = id
        ∧ entry = {| code := finalCode rslt; resolveDir := dirname path |}
        ∧ Forall (λ r, ¬ issues r id) after).
    { intros Hold Hr.
      destruct (IH Hold)
        as (before & o & b & p & rslt & exports & after & -> & H1 & H2 & H3 & H4
            & H5 & H6).
      exists before, o, b, p, rslt, exports, (after ++ [r]).
      rewrite <- app_assoc. repeat split; try assumption.
      apply Forall_app. split; [assumption|]. now constructor. }
    destruct r as [options bundle path|path]; cbn [serve] in Hentry.
    + destruct (onLoad_cases options bundle (run requests) path)
        as [[Hex Hst]|[[Hex (err & Hb & Hst)]|[[Hex (rslt & Hb & He & Hst)]
                                              |[Hex (rslt & exports & Hb & He & Hst)]]]].
      * apply Hkeep; [now rewrite Hst in Hentry|].
        apply (not_issues_unless_module _ _ (run requests)).
        rewrite Hst. discriminate.
      * apply Hkeep; [now rewrite Hst in Hentry|].
        apply (not_issues_unless_module _ _ (run requests)).
        rewrite Hst. discriminate.
      * apply Hkeep; [now rewrite Hst in Hentry|].
        apply (not_issues_unless_module _ _ (run requests)).
        rewrite Hst. discriminate.
      * rewrite Hst in Hentry. cbn [snd cacheSet transpiledCssModulesMap] in Hentry.
        destruct (decide (virtualId path = id)) as [Heq|Hne].
        -- rewrite <- Heq, lookup_insert_eq in Hentry.
           exists requests, options, bundle, path, rslt, exports, [].
           repeat split; try assumption; [congruence | constructor].
        -- rewrite lookup_insert_ne in Hentry by exact Hne.
           apply Hkeep; [assumption|]. intros [Heq _]. contradiction.
    + apply Hkeep; [assumption|]. intros [].
Qed.

(** ** Resolving what the module imports *)



(** ** The options *)

(** X12: the module configuration handed to lightningcss: every property
    of [options.cssModules] goes through as it is, its [pattern] included;
    without one there, the pattern is [options.cssModulesPattern], and
    [[hash]_[local]] when that is missing too. *)
Theorem cssModulesConfig_precedence (cssModulesPattern : option string)
    (cssModules : option (gmap string JsValue)) :
  let config := cssModulesConfig cssModulesPattern cssModules in
  (∀ m key v, cssModules = Some m → m !! key = Some v → config !! key = Some v)
  ∧ (default ∅ cssModules !! "pattern" = None →
     config !! "pattern"
     = Some (JsString (default "[hash]_[local]" cssModulesPattern)))
  ∧ (∀ key, key ≠ "pattern" → config !! key = default ∅ cssModules !! key).
Proof.
  cbn zeta. unfold cssModulesConfig. split; [|split].
  - intros m key v -> Hkey. cbn [default from_option].
    now apply lookup_union_Some_l.
  - intros Hnone. rewrite lookup_union_r by exact Hnone.
    apply lookup_singleton_eq.
  - intros key Hkey. rewrite lookup_union_l; [reflexivity|].
    now apply lookup_singleton_ne.
Qed.

Lemma occurs_append (c : ascii) (a b : string) :
  occurs c (a +:+ b) = occurs c a || occurs c b.
Proof.
  induction a as [|x a IH]; [reflexivity|].
  cbn [String.append occurs]. now rewrite IH, orb_assoc.
Qed.

Lemma endsWith_split (suffix s : string) :
  endsWith suffix s = true → ∃ front, s = front +:+ suffix.
Proof.
  induction s as [|x s IH]; cbn [endsWith]; intros H;
    apply orb_true_iff in H as [H|H].
  - apply String.eqb_eq in H as <-. now exists EmptyString.
  - discriminate H.
  - apply String.eqb_eq in H as <-. now exists EmptyString.
  - destruct (IH H) as [front ->]. now exists (String x front).
Qed.

Lemma endsWith_append (front suffix : string) :
  endsWith suffix (front +:+ suffix) = true.
Proof.
  induction front as [|x front IH].
  - destruct suffix; cbn [String.append endsWith]; now rewrite String.eqb_refl.
  - cbn [String.append endsWith]. rewrite IH. apply orb_true_r.
Qed.

Lemma list_of_append (a b : string) :
  list_ascii_of_string (a +:+ b)
  = list_ascii_of_string a ++ list_ascii_of_string b.
Proof. induction a as [|x a IH]; [reflexivity|]. cbn. now rewrite IH. Qed.

Lemma append_cancel_r (a b c : string) : a +:+ c = b +:+ c → a = b.
Proof.
  intros H. apply (f_equal list_ascii_of_string) in H.
  rewrite !list_of_append in H. apply app_inv_tail in H.
  apply (f_equal string_of_list_ascii) in H.
  now rewrite !string_of_list_ascii_of_string in H.
Qed.

(** X13: with no [includeFilter] given, the file hook's filter takes the paths
    that end in [.module.css]; and it takes none of the identities the
    plugin issues, a base64url digest having no dot in it. *)
Theorem default_filter (stem path : string) :
  includeFilterTest None (stem +:+ ".module.css") = true
  ∧ (occurs "." (sha256_base64url path) = false →
     includeFilterTest None (virtualId path) = false).
Proof.
  split; [apply endsWith_append|].
  intros Hdot. unfold includeFilterTest. cbn [default from_option].
  destruct (endsWith ".module.css" (virtualId path)) eqn:Hends; [|reflexivity].
  exfalso. apply endsWith_split in Hends as [front Heq].
  unfold virtualId in Heq.
  change ".module.css" with (".module" +:+ ".css") in Heq.
  rewrite <- !append_assoc in Heq. apply append_cancel_r in Heq.
  apply (f_equal (occurs ".")) in Heq. rewrite !occurs_append, Hdot in Heq.
  rewrite orb_true_r in Heq. discriminate Heq.
Qed.

(** ** Lexing what the code writes *)

Lemma lexRun_append (st : LexState) (a b : string) :
  lexRun st (a +:+ b) = lexRun (lexRun st a) b.
Proof.
  revert st. induction a as [|c a IH]; intros st; [reflexivity|].
  cbn [String.append lexRun]. apply IH.
Qed.

Lemma lex_quoteJSONChar_single (c : ascii) (toks : list Token) (acc : string) :
  c ≠ Js.SQ →
  lexRun (lexAt toks (InString Js.SQ acc)) (Js.quoteJSONChar c)
  = lexAt toks (InString Js.SQ (acc +:+ Js.str c)).
Proof. intros Hc. each_character c; first [reflexivity | now destruct Hc]. Qed.

Lemma lex_quoteJSONChar_double (c : ascii) (toks : list Token) (acc : string) :
  lexRun (lexAt toks (InString Js.DQ acc)) (Js.quoteJSONChar c)
  = lexAt toks (InString Js.DQ (acc +:+ Js.str c)).
Proof. each_character c; reflexivity. Qed.

Lemma append_snoc (acc : string) (c : ascii) (s : string) :
  (acc +:+ Js.str c) +:+ s = acc +:+ String c s.
Proof. now rewrite append_assoc. Qed.

(** Inside a single-quoted literal, the escaped form of a name without
    apostrophe adds the name itself to the value being read. *)
Lemma lex_escape_single (s : string) (toks : list Token) (acc : string) :
  occurs Js.SQ s = false →
  lexRun (lexAt toks (InString Js.SQ acc)) (escape s)
  = lexAt toks (InString Js.SQ (acc +:+ s)).
Proof.
  rewrite escape_body. revert acc.
  induction s as [|c s IH]; intros acc Hs; [now rewrite append_nil_r|].
  cbn [occurs] in Hs. apply orb_false_iff in Hs as [Hc Hs].
  cbn [Js.quoteJSONBody]. rewrite lexRun_append, lex_quoteJSONChar_single.
  - rewrite (IH _ Hs). now rewrite append_snoc.
  - intros ->. discriminate Hc.
Qed.

Lemma lex_escape_double (s : string) (toks : list Token) (acc : string) :
  lexRun (lexAt toks (InString Js.DQ acc)) (escape s)
  = lexAt toks (InString Js.DQ (acc +:+ s)).
Proof.
  rewrite escape_body. revert acc.
  induction s as [|c s IH]; intros acc; [now rewrite append_nil_r|].
  cbn [Js.quoteJSONBody]. rewrite lexRun_append, lex_quoteJSONChar_double.
  rewrite IH. now rewrite append_snoc.
Qed.

(** Between tokens, [quote s] is read as the string literal of value [s]. *)
Lemma lex_quote (s : string) (toks : list Token) :
  lexRun (lexAt toks InCode) (quote s) = lexAt (toks ++ [TString s]) InCode.
Proof.
  unfold quote, Js.JSON_stringify. rewrite <- escape_body.
  cbn [lexRun]. change (lexStep (lexAt toks InCode) Js.DQ)
    with (lexAt toks (InString Js.DQ EmptyString)).
  now rewrite lexRun_append, lex_escape_double.
Qed.

Lemma lex_digits (d : Decimal.uint) (toks : list Token) (acc : string) :
  lexRun (lexAt toks (InName acc)) (NilEmpty.string_of_uint d)
  = lexAt toks (InName (acc +:+ NilEmpty.string_of_uint d)).
Proof.
  revert acc. induction d; intros acc; cbn [NilEmpty.string_of_uint lexRun];
    [now rewrite append_nil_r | ..];
    (etransitivity; [apply IHd|]); now rewrite append_snoc.
Qed.

Lemma lex_number (n : nat) (toks : list Token) (acc : string) :
  lexRun (lexAt toks (InName acc)) (Js.numberToString n)
  = lexAt toks (InName (acc +:+ Js.numberToString n)).
Proof.
  unfold Js.numberToString, NilZero.string_of_uint.
  destruct (Nat.to_uint n) eqn:Hn; try apply lex_digits.
  reflexivity.
Qed.

Lemma lex_dependencyName (i : nat) (toks : list Token) :
  lexRun (lexAt toks InCode) (dependencyName i)
  = lexAt toks (InName (dependencyName i)).
Proof.
  unfold dependencyName. rewrite lexRun_append.
  change (lexRun (lexAt toks InCode) "dependency_")
    with (lexAt toks (InName "dependency_")).
  apply lex_number.
Qed.

Lemma moreTermTokens_nonempty (terms : list Term) :
  terms ≠ [] → moreTermTokens terms = TPunct "+" :: termsTokens terms.
Proof. destruct terms as [|t ts]; [congruence | reflexivity]. Qed.

Lemma termsFrom_nonempty (refs : list string) (cs : list CSSModuleReference)
    (lit : string) :
  termsFrom refs lit cs ≠ [].
Proof.
  revert lit. induction cs as [|[n|n|n sp] cs IH]; intros lit;
    cbn [termsFrom]; try apply IH; discriminate.
Qed.

Lemma bindingOf_elem (refs : list string) (sp : string) :
  sp ∈ refs → ∃ i, bindingOf refs sp = dependencyName i.
Proof.
  intros Hin. apply list_elem_of_split_l in Hin as (r1 & r2 & -> & Hnot).
  eexists. now apply bindingOf_first.
Qed.

(** The compositions of a class, read from inside the literal the code
    opened before the compiled name, up to the quote that closes the value:
    the tokens of the terms expected. *)
Lemma lex_fragments (refs : list string) (cs : list CSSModuleReference)
    (toks : list Token) (acc : string) :
  forallb (λ c, negb (occurs Js.SQ (writtenInLiteral c))) cs = true →
  (∀ sp, sp ∈ flat_map specifierOf cs → sp ∈ refs) →
  lexRun (lexAt toks (InString Js.SQ acc))
    (joinAll (map (fragment refs) cs) +:+ Js.str Js.SQ)
  = lexAt (toks ++ termsTokens (termsFrom refs acc cs)) InCode.
Proof.
  revert toks acc. induction cs as [|c cs IH]; intros toks acc Hfree Hrefs.
  - reflexivity.
  - cbn [forallb] in Hfree. apply andb_true_iff in Hfree as [Hc Hfree].
    apply negb_true_iff in Hc.
    cbn [map flat_map] in *. rewrite joinAll_cons, append_assoc, lexRun_append.
    assert (Hrest : ∀ sp, sp ∈ flat_map specifierOf cs → sp ∈ refs).
    { intros sp Hsp. apply Hrefs, elem_of_app. now right. }
    destruct c as [n|n|n sp]; cbn [fragment termsFrom writtenInLiteral] in *.
    + rewrite (lexRun_append _ " " (escape n)).
      change (lexRun (lexAt toks (InString Js.SQ acc)) " ")
        with (lexAt toks (InString Js.SQ (acc +:+ " "))).
      rewrite (lex_escape_single n _ _ Hc), (IH _ _ Hfree Hrest).
      now rewrite append_assoc.
    + rewrite (lexRun_append _ " " (escape n)).
      change (lexRun (lexAt toks (InString Js.SQ acc)) " ")
        with (lexAt toks (InString Js.SQ (acc +:+ " "))).
      rewrite (lex_escape_single n _ _ Hc), (IH _ _ Hfree Hrest).
      now rewrite append_assoc.
    + destruct (bindingOf_elem refs sp) as [i ->].
      { apply Hrefs, elem_of_app. left. apply list_elem_of_singleton.
        reflexivity. }
      rewrite (lexRun_append _ " ' + " _).
      rewrite (lexRun_append _ (dependencyName i) _).
      rewrite (lexRun_append _ "[" _).
      rewrite (lexRun_append _ (quote n) "] + '").
      change (lexRun (lexAt toks (InString Js.SQ acc)) " ' + ")
        with (lexAt ((toks ++ [TString (acc +:+ " ")]) ++ [TPunct "+"]) InCode).
      rewrite lex_dependencyName.
      change (lexRun (lexAt ((toks ++ [TString (acc +:+ " ")]) ++ [TPunct "+"])
                        (InName (dependencyName i))) "[")
        with (lexAt ((((toks ++ [TString (acc +:+ " ")]) ++ [TPunct "+"])
                        ++ [TName (dependencyName i)]) ++ [TPunct "["]) InCode).
      rewrite lex_quote.
      match goal with
      | |- lexRun (lexRun (lexAt ?t InCode) "] + '") _ = _ =>
          change (lexRun (lexAt t InCode) "] + '")
            with (lexAt ((t ++ [TPunct "]"]) ++ [TPunct "+"])
                    (InString Js.SQ EmptyString))
      end.
      rewrite (IH _ _ Hfree Hrest).
      cbn [termsTokens]. rewrite (moreTermTokens_nonempty (_ :: _)) by discriminate.
      cbn [termsTokens termTokensOf].
      rewrite (moreTermTokens_nonempty (termsFrom refs EmptyString cs))
        by apply termsFrom_nonempty.
      rewrite <- !app_assoc. reflexivity.
Qed.

Lemma lex_valueExpression (refs : list string) (e : CSSModuleExport)
    (toks : list Token) :
  apostropheFreeEntry e = true →
  (∀ sp, sp ∈ flat_map specifierOf (compositionsOf e) → sp ∈ refs) →
  lexRun (lexAt toks InCode) (valueExpression refs e)
  = lexAt (toks ++ termsTokens (termsOf refs e)) InCode.
Proof.
  intros Hfree Hrefs. apply andb_true_iff in Hfree as [Hname Hcs].
  apply negb_true_iff in Hname.
  unfold valueExpression, termsOf.
  rewrite (lexRun_append _ (Js.str Js.SQ) _).
  change (lexRun (lexAt toks InCode) (Js.str Js.SQ))
    with (lexAt toks (InString Js.SQ EmptyString)).
  rewrite (lexRun_append _ (escape (name e)) _).
  rewrite (lex_escape_single _ _ _ Hname).
  apply (lex_fragments _ _ _ _ Hcs Hrefs).
Qed.

Lemma lex_propertyText (refs : list string) (k : string) (e : CSSModuleExport)
    (toks : list Token) :
  apostropheFreeEntry e = true →
  (∀ sp, sp ∈ flat_map specifierOf (compositionsOf e) → sp ∈ refs) →
  lexRun (lexAt toks InCode) (propertyText (k, valueExpression refs e))
  = lexAt (toks ++ propertyTokens (k, termsOf refs e)) InCode.
Proof.
  intros Hfree Hrefs. unfold propertyText, propertyTokens. cbn [fst snd].
  rewrite (lexRun_append _ (quote k) _), lex_quote.
  rewrite (lexRun_append _ ":" _).
  change (lexRun (lexAt (toks ++ [TString k]) InCode) ":")
    with (lexAt ((toks ++ [TString k]) ++ [TPunct ":"]) InCode).
  rewrite (lexRun_append _ (valueExpression refs e) ",").
  rewrite (lex_valueExpression _ _ _ Hfree Hrefs).
  match goal with
  | |- lexRun (lexAt ?t InCode) "," = _ =>
      change (lexRun (lexAt t InCode) ",") with (lexAt (t ++ [TPunct ","]) InCode)
  end.
  rewrite <- !app_assoc. reflexivity.
Qed.

Lemma lex_properties (refs : list string) (exports : CSSModuleExports)
    (toks : list Token) :
  apostropheFree exports = true →
  (∀ sp, sp ∈ specifiersOf exports → sp ∈ refs) →
  lexRun (lexAt toks InCode)
    (joinAll (map propertyText (exportProperties refs exports)))
  = lexAt (toks
             ++ flat_map propertyTokens
                  (map (λ entry, (camelCase entry.1, termsOf refs entry.2))
                     exports))
      InCode.
Proof.
  revert toks. induction exports as [|entry exports IH]; intros toks Hfree Hrefs.
  - cbn. now rewrite app_nil_r.
  - cbn [apostropheFree forallb] in Hfree.
    apply andb_true_iff in Hfree as [He Hfree].
    rewrite specifiersOf_cons in Hrefs.
    cbn [exportProperties map flat_map]. rewrite joinAll_cons, lexRun_append.
    rewrite (lex_propertyText _ _ _ _ He).
    + fold (exportProperties refs exports). rewrite IH; [|exact Hfree|].
      * now rewrite <- app_assoc.
      * intros sp Hsp. apply Hrefs, elem_of_app. now right.
    + intros sp Hsp. apply Hrefs, elem_of_app. now left.
Qed.

Lemma lex_importStatement (i : nat) (sp : string) (toks : list Token) :
  lexRun (lexAt toks InCode) (importStatement (dependencyName i) sp)
  = lexAt (toks
             ++ importTokens {| importedAs := Some (dependencyName i);
                                importedFrom := sp |})
      InCode.
Proof.
  unfold importStatement, importTokens. cbn [importedAs importedFrom].
  rewrite (lexRun_append _ "import " _).
  change (lexRun (lexAt toks InCode) "import ")
    with (lexAt (toks ++ [TName "import"]) InCode).
  rewrite (lexRun_append _ (dependencyName i) _), lex_dependencyName.
  rewrite (lexRun_append _ " from " _).
  change (lexRun (lexAt (toks ++ [TName "import"]) (InName (dependencyName i)))
            " from ")
    with (lexAt (((toks ++ [TName "import"]) ++ [TName (dependencyName i)])
                   ++ [TName "from"]) InCode).
  rewrite (lexRun_append _ (quote sp) _), lex_quote.
  match goal with
  | |- lexRun (lexAt ?t InCode) (Js.str Js.LF) = _ =>
      change (lexRun (lexAt t InCode) (Js.str Js.LF))
        with (lexAt (t ++ [TNewline]) InCode)
  end.
  rewrite <- !app_assoc. reflexivity.
Qed.

Lemma lex_primaryImport (id : string) (toks : list Token) :
  lexRun (lexAt toks InCode) (primaryImport id)
  = lexAt (toks ++ importTokens {| importedAs := None; importedFrom := id |})
      InCode.
Proof.
  unfold primaryImport, importTokens. cbn [importedAs importedFrom].
  rewrite (lexRun_append _ "import " _).
  change (lexRun (lexAt toks InCode) "import ")
    with (lexAt (toks ++ [TName "import"]) InCode).
  rewrite (lexRun_append _ (quote id) _), lex_quote.
  match goal with
  | |- lexRun (lexAt ?t InCode) (Js.str Js.LF) = _ =>
      change (lexRun (lexAt t InCode) (Js.str Js.LF))
        with (lexAt (t ++ [TNewline]) InCode)
  end.
  rewrite <- !app_assoc. reflexivity.
Qed.

Lemma lex_dependencyImports (refs : list string) (toks : list Token) :
  lexRun (lexAt toks InCode) (joinAll (rev (dependencyImports refs)))
  = lexAt (toks
             ++ flat_map importTokens
                  (rev (imap (λ i specifier,
                                {| importedAs := Some (dependencyName i);
                                   importedFrom := specifier |}) refs)))
      InCode.
Proof.
  revert toks. induction refs as [|sp refs IH] using rev_ind; intros toks.
  - cbn. now rewrite app_nil_r.
  - rewrite dependencyImports_snoc, imap_app, !rev_app_distr.
    cbn [imap rev app flat_map]. rewrite Nat.add_0_r.
    rewrite joinAll_cons, lexRun_append, lex_importStatement, IH.
    now rewrite <- app_assoc.
Qed.

(** The tokens of the module of a table without apostrophes in the names
    written between single quotes. *)
Lemma lex_synthesize (id : string) (exports : CSSModuleExports) :
  apostropheFree exports = true →
  lex (synthesize id exports) = Some (moduleTokens (readingOf id exports)).
Proof.
  intros Hfree. rewrite synthesize_layout. unfold emittedStatements, lex.
  set (refs := firstReferences (specifiersOf exports)).
  change lexStart with (lexAt [] InCode).
  rewrite joinAll_app, lexRun_append, lex_dependencyImports.
  rewrite !joinAll_cons, lexRun_append, lex_primaryImport.
  unfold exportStatement.
  rewrite (lexRun_append _ ("export default {" +:+ _ +:+ "}") _).
  rewrite (lexRun_append _ "export default {" _).
  match goal with
  | |- context [lexRun (lexAt ?t InCode) "export default {"] =>
      change (lexRun (lexAt t InCode) "export default {")
        with (lexAt (((t ++ [TName "export"]) ++ [TName "default"])
                       ++ [TPunct "{"]) InCode)
  end.
  rewrite (lexRun_append _ (joinAll _) "}").
  rewrite (lex_properties refs exports _ Hfree).
  - match goal with
    | |- context [lexRun (lexAt ?t InCode) "}"] =>
        change (lexRun (lexAt t InCode) "}") with (lexAt (t ++ [TPunct "}"]) InCode)
    end.
    match goal with
    | |- context [lexRun (lexAt ?t InCode) (sourceMapMarker +:+ joinAll [])] =>
        change (lexRun (lexAt t InCode) (sourceMapMarker +:+ joinAll []))
          with (lexAt (t ++ [TNewline]) InComment)
    end.
    cbn [lexMode lexed lexAt]. f_equal.
    unfold moduleTokens, readingOf. fold refs. cbn [moduleImports moduleExport].
    rewrite flat_map_app. cbn [flat_map]. rewrite app_nil_r.
    rewrite <- !app_assoc. reflexivity.
  - intros sp Hsp. now apply firstReferences_spec.
Qed.

(** ** Parsing the tokens *)

Lemma isReserved_dependencyName (i : nat) : isReserved (dependencyName i) = false.
Proof. reflexivity. Qed.

Lemma parse_term (t : Term) (imps : list ImportDeclaration)
    (props : list (string * list Term)) (k : string) (done : list Term) :
  termOk t →
  foldl parseStep (parseAt imps props (AtTerm k done)) (termTokensOf t)
  = parseAt imps props (AfterTerm k (done ++ [t])).
Proof.
  destruct t as [v|d key]; cbn [termOk termTokensOf foldl]; intros Hok.
  - reflexivity.
  - assert (Hstep : parseStep (parseAt imps props (AtTerm k done)) (TName d)
                    = parseAt imps props (AfterLookupName k done d)).
    { unfold parseStep. cbn [parseMode parseAt]. now rewrite Hok. }
    rewrite Hstep. reflexivity.
Qed.

Lemma parse_moreTerms (ts : list Term) (imps : list ImportDeclaration)
    (props : list (string * list Term)) (k : string) (done : list Term) :
  Forall termOk ts →
  foldl parseStep (parseAt imps props (AfterTerm k done)) (moreTermTokens ts)
  = parseAt imps props (AfterTerm k (done ++ ts)).
Proof.
  intros Hok. revert done. induction Hok as [|t ts Ht _ IH]; intros done.
  - cbn. now rewrite app_nil_r.
  - cbn [moreTermTokens flat_map]. fold (moreTermTokens ts).
    cbn [app foldl]. rewrite foldl_app.
    change (parseStep (parseAt imps props (AfterTerm k done)) (TPunct "+"))
      with (parseAt imps props (AtTerm k done)).
    rewrite (parse_term _ _ _ _ _ Ht), IH. now rewrite <- app_assoc.
Qed.

Lemma parse_property (k : string) (terms : list Term)
    (imps : list ImportDeclaration) (props : list (string * list Term)) :
  terms ≠ [] → Forall termOk terms →
  foldl parseStep (parseAt imps props AtKey) (propertyTokens (k, terms))
  = parseAt imps (props ++ [(k, terms)]) AtKey.
Proof.
  intros Hne Hok. destruct terms as [|t ts]; [congruence|].
  apply Forall_cons in Hok as [Ht Hts].
  unfold propertyTokens. cbn [fst snd termsTokens foldl].
  change (parseStep (parseStep (parseAt imps props AtKey) (TString k))
            (TPunct ":"))
    with (parseAt imps props (AtTerm k [])).
  rewrite <- app_assoc, foldl_app, (parse_term _ _ _ _ _ Ht).
  rewrite foldl_app, (parse_moreTerms _ _ _ _ _ Hts). reflexivity.
Qed.

Lemma parse_properties (ps : list (string * list Term))
    (imps : list ImportDeclaration) (props : list (string * list Term)) :
  Forall (λ p, p.2 ≠ [] ∧ Forall termOk p.2) ps →
  foldl parseStep (parseAt imps props AtKey) (flat_map propertyTokens ps)
  = parseAt imps (props ++ ps) AtKey.
Proof.
  intros Hok. revert props. induction Hok as [|[k terms] ps [Hne Ht] _ IH];
    intros props.
  - cbn. now rewrite app_nil_r.
  - cbn [flat_map]. rewrite foldl_app, (parse_property _ _ _ _ Hne Ht), IH.
    now rewrite <- app_assoc.
Qed.

Lemma parse_import (imp : ImportDeclaration) (imps : list ImportDeclaration)
    (props : list (string * list Term)) :
  importOk imp →
  foldl parseStep (parseAt imps props AtStatement) (importTokens imp)
  = parseAt (imps ++ [imp]) props AtStatement.
Proof.
  destruct imp as [[d|] from]; unfold importOk, importTokens;
    cbn [importedAs importedFrom foldl]; intros Hok.
  - change (parseStep (parseAt imps props AtStatement) (TName "import"))
      with (parseAt imps props AfterImport).
    assert (Hstep : parseStep (parseAt imps props AfterImport) (TName d)
                    = parseAt imps props (AfterBinding d)).
    { unfold parseStep. cbn [parseMode parseAt]. now rewrite Hok. }
    rewrite Hstep. reflexivity.
  - reflexivity.
Qed.

Lemma parse_imports (l imps : list ImportDeclaration)
    (props : list (string * list Term)) :
  Forall importOk l →
  foldl parseStep (parseAt imps props AtStatement) (flat_map importTokens l)
  = parseAt (imps ++ l) props AtStatement.
Proof.
  intros Hok. revert imps. induction Hok as [|imp l Himp _ IH]; intros imps.
  - cbn. now rewrite app_nil_r.
  - cbn [flat_map]. rewrite foldl_app, (parse_import _ _ _ Himp), IH.
    now rewrite <- app_assoc.
Qed.

(** The tokens that say a reading are parsed back to it. *)
Lemma parse_moduleTokens (m : ModuleReading) :
  Forall importOk (moduleImports m) →
  Forall (λ p, p.2 ≠ [] ∧ Forall termOk p.2) (moduleExport m) →
  parseModule (moduleTokens m) = Some m.
Proof.
  intros Himps Hprops. unfold parseModule, moduleTokens.
  change parseStart with (parseAt [] [] AtStatement).
  rewrite foldl_app, (parse_imports _ _ _ Himps).
  cbn [app foldl].
  change (parseStep
            (parseStep
               (parseStep (parseAt (moduleImports m) [] AtStatement)
                  (TName "export")) (TName "default")) (TPunct "{"))
    with (parseAt (moduleImports m) [] AtKey).
  rewrite foldl_app, (parse_properties _ _ _ Hprops).
  cbn. now destruct m.
Qed.

Lemma termsFrom_ok (refs : list string) (cs : list CSSModuleReference)
    (lit : string) :
  (∀ sp, sp ∈ flat_map specifierOf cs → sp ∈ refs) →
  Forall termOk (termsFrom refs lit cs).
Proof.
  revert lit. induction cs as [|c cs IH]; intros lit Hrefs.
  - repeat constructor.
  - assert (Hrest : ∀ sp, sp ∈ flat_map specifierOf cs → sp ∈ refs).
    { intros sp Hsp. apply Hrefs. cbn [flat_map]. apply elem_of_app. now right. }
    destruct c as [n|n|n sp]; cbn [termsFrom]; try now apply IH.
    constructor; [exact I|]. constructor; [|now apply IH].
    destruct (bindingOf_elem refs sp) as [i Hi].
    { apply Hrefs. cbn [flat_map specifierOf]. apply elem_of_app. left.
      apply list_elem_of_singleton. reflexivity. }
    cbn [termOk]. rewrite Hi. apply isReserved_dependencyName.
Qed.

(** The module the code writes for a table without apostrophes in the
    names written between single quotes is read back as the module
    expected: the text is in the fragment, and says what [readingOf] says. *)
Lemma readModule_synthesize (id : string) (exports : CSSModuleExports) :
  apostropheFree exports = true →
  readModule (synthesize id exports) = Some (readingOf id exports).
Proof.
  intros Hfree. unfold readModule. rewrite (lex_synthesize _ _ Hfree).
  cbn [mbind option_bind]. apply parse_moduleTokens.
  - unfold readingOf. cbn [moduleImports]. apply Forall_app. split.
    + apply Forall_forall. intros imp Himp.
      apply list_elem_of_In, in_rev, list_elem_of_In in Himp.
      apply list_elem_of_lookup in Himp as [i Hi].
      rewrite list_lookup_imap in Hi.
      destruct (firstReferences (specifiersOf exports) !! i); [|discriminate].
      cbn in Hi. injection Hi as <-. apply isReserved_dependencyName.
    + repeat constructor.
  - unfold readingOf. cbn [moduleExport]. apply Forall_forall.
    intros p Hp. apply list_elem_of_In, in_map_iff in Hp as [entry [<- Hentry]].
    cbn [snd]. split; [apply termsFrom_nonempty|].
    apply termsFrom_ok. intros sp Hsp. apply firstReferences_spec.
    unfold specifiersOf. apply list_elem_of_In, in_flat_map.
    exists entry. split; [assumption | now apply list_elem_of_In].
Qed.

Lemma termsFrom_literal (refs : list string) (cs : list CSSModuleReference)
    (lit : string) :
  flat_map specifierOf cs = [] →
  termsFrom refs lit cs
  = [Lit (lit +:+ joinAll (map (λ c, " " +:+ compositionName c) cs))].
Proof.
  revert lit. induction cs as [|c cs IH]; intros lit H.
  - cbn. now rewrite append_nil_r.
  - cbn [flat_map] in H. apply app_eq_nil in H as [Hc Hcs].
    destruct c as [n|n|n sp]; [| |discriminate Hc];
      cbn [termsFrom map compositionName]; rewrite (IH _ Hcs), joinAll_cons;
      now rewrite !append_assoc.
Qed.

(** X6: when no class composes from another file and no name written
    between single quotes has an apostrophe, the module text is the import
    of the stylesheet, the export statement and the marker, and it reads as
    JavaScript so: the import of the stylesheet is the only import, and the
    value of every class is one string literal whose value is the class
    list, compiled name first, then the composed names in their order,
    single spaces between. *)
Theorem synthesize_without_dependencies (id : string)
    (exports : CSSModuleExports) :
  apostropheFree exports = true →
  specifiersOf exports = [] →
  readModule (synthesize id exports)
  = Some {| moduleImports := [{| importedAs := None; importedFrom := id |}];
            moduleExport :=
              map (λ entry, (camelCase entry.1, [Lit (spaceJoined entry.2)]))
                exports |}
  ∧ synthesize id exports
    = primaryImport id
        +:+ exportStatement
              (map (λ entry,
                      (camelCase entry.1,
                       Js.str Js.SQ +:+ escape (spaceJoined entry.2)
                         +:+ Js.str Js.SQ))
                 exports)
        +:+ sourceMapMarker.
Proof.
  intros Hfree H. split.
  - rewrite (readModule_synthesize _ _ Hfree). unfold readingOf.
    rewrite H. cbn [firstReferences foldl imap rev app]. do 2 f_equal.
    clear Hfree. induction exports as [|entry exports IH]; [reflexivity|].
    rewrite specifiersOf_cons in H. apply app_eq_nil in H as [He Hrest].
    cbn [map]. rewrite (IH Hrest). do 2 f_equal.
    unfold termsOf, spaceJoined. now apply termsFrom_literal.
  - rewrite synthesize_layout. unfold emittedStatements.
    rewrite H. cbn [firstReferences foldl dependencyImports imap rev app].
    rewrite (exportProperties_literal [] exports H).
    cbn [joinAll foldr]. now rewrite append_nil_r.
Qed.

Lemma termsValue_termsFrom (env : string -> string -> string)
    (refs : list string) (cs : list CSSModuleReference) (lit : string) :
  termsValue env (termsFrom refs lit cs)
  = lit +:+ joinAll (map (λ c, " " +:+ compositionValue env refs c) cs).
Proof.
  unfold termsValue. revert lit. induction cs as [|c cs IH]; intros lit.
  - reflexivity.
  - destruct c as [n|n|n sp];
      cbn [termsFrom map compositionValue termValue].
    + rewrite IH, joinAll_cons. now rewrite !append_assoc.
    + rewrite IH, joinAll_cons. now rewrite !append_assoc.
    + rewrite !joinAll_cons, IH. cbn [String.append termValue].
      now rewrite !append_assoc.
Qed.

Lemma lookup_in_termsFrom (refs : list string) (cs : list CSSModuleReference)
    (lit n sp : string) :
  dependency n sp ∈ cs → Lookup (bindingOf refs sp) n ∈ termsFrom refs lit cs.
Proof.
  revert lit. induction cs as [|c cs IH]; intros lit H.
  - now apply elem_of_nil in H.
  - apply elem_of_cons in H as [<-|H].
    + cbn [termsFrom]. apply list_elem_of_further, list_elem_of_here.
    + destruct c as [m|m|m sp']; cbn [termsFrom]; auto.
      now do 2 apply list_elem_of_further; apply IH.
Qed.

(** X14: for a table in which no name written between single quotes has an
    apostrophe, the module text reads as JavaScript, and reads so: one
    import per distinct Dependency specifier, the latest first reference
    on top, then the import of the stylesheet; one property per entry, in
    table order, under the camel-cased name.  The specifiers imported are
    those referenced, each once; the i-th of them in first-reference order
    is bound to dependency_i, distinct bindings for distinct specifiers,
    and every composition naming it uses that binding.  The value of each
    class is a concatenation whose terms are string literals and lookups:
    every Dependency composition is there as a lookup of the composed name
    in the binding of its specifier, and the value at run time is the
    compiled name, then what each composition gives, in their order, after
    a single space each. *)
Theorem synthesize_reads_as_module (id : string) (exports : CSSModuleExports) :
  apostropheFree exports = true →
  readModule (synthesize id exports)
  = Some {| moduleImports :=
              rev (imap (λ i specifier,
                           {| importedAs := Some (dependencyName i);
                              importedFrom := specifier |})
                     (firstReferences (specifiersOf exports)))
                ++ [{| importedAs := None; importedFrom := id |}];
            moduleExport :=
              map (λ entry,
                     (camelCase entry.1,
                      termsOf (firstReferences (specifiersOf exports))
                        entry.2))
                exports |}
  ∧ NoDup (firstReferences (specifiersOf exports))
  ∧ (∀ specifier,
       specifier ∈ firstReferences (specifiersOf exports)
       ↔ specifier ∈ specifiersOf exports)
  ∧ (∀ i specifier,
       firstReferences (specifiersOf exports) !! i = Some specifier →
       bindingOf (firstReferences (specifiersOf exports)) specifier
       = dependencyName i)
  ∧ (∀ i j, dependencyName i = dependencyName j → i = j)
  ∧ (∀ e n specifier,
       dependency n specifier ∈ compositionsOf e →
       Lookup (bindingOf (firstReferences (specifiersOf exports)) specifier) n
       ∈ termsOf (firstReferences (specifiersOf exports)) e)
  ∧ (∀ env e,
       termsValue env (termsOf (firstReferences (specifiersOf exports)) e)
       = runtimeClassList env (firstReferences (specifiersOf exports)) e).
Proof.
  intros Hfree. repeat split.
  - now rewrite (readModule_synthesize _ _ Hfree).
  - apply firstReferences_NoDup.
  - apply firstReferences_spec.
  - apply firstReferences_spec.
  - intros i specifier. apply bindingOf_lookup, firstReferences_NoDup.
  - apply dependencyName_inj.
  - intros e n specifier. apply lookup_in_termsFrom.
  - intros env e. apply termsValue_termsFrom.
Qed.

Lemma moduleExport_app_keys (refs : list string)
    (l1 l2 : CSSModuleExports) :
  map (λ entry : string * CSSModuleExport,
         (camelCase entry.1, termsOf refs entry.2)) (l1 ++ l2)
  = map (λ entry, (camelCase entry.1, termsOf refs entry.2)) l1
      ++ map (λ entry, (camelCase entry.1, termsOf refs entry.2)) l2.
Proof. apply map_app. Qed.

Lemma keyUnused_properties (refs : list string) (key : string)
    (exports : CSSModuleExports) :
  keyUnused key exports →
  Forall (λ p : string * list Term, p.1 ≠ key)
    (map (λ entry, (camelCase entry.1, termsOf refs entry.2)) exports).
Proof.
  unfold keyUnused. induction 1 as [|entry rest Hentry _ IH]; cbn [map].
  - constructor.
  - constructor; [exact Hentry | exact IH].
Qed.

(** X15: in a table in which no name written between single quotes has an
    apostrophe and no key is __proto__, when two classes have the same
    camel-cased key and no class after the later one has it, the module
    text reads as JavaScript, the exported object has under that key the
    value of the later class, and the object is the one the same literal
    gives with the property of the earlier class left out. *)
Theorem colliding_keys_later_wins (id : string)
    (before between after : CSSModuleExports)
    (n1 n2 : string) (e1 e2 : CSSModuleExport) :
  apostropheFree (before ++ (n1, e1) :: between ++ (n2, e2) :: after) = true →
  keyUnused "__proto__" (before ++ (n1, e1) :: between ++ (n2, e2) :: after) →
  camelCase n1 = camelCase n2 →
  keyUnused (camelCase n2) after →
  ∃ m,
    readModule
      (synthesize id (before ++ (n1, e1) :: between ++ (n2, e2) :: after))
    = Some m
    ∧ evalObjectLiteral (moduleExport m) !! camelCase n2
      = Some (termsOf
                (firstReferences
                   (specifiersOf
                      (before ++ (n1, e1) :: between ++ (n2, e2) :: after)))
                e2)
    ∧ evalObjectLiteral (moduleExport m)
      = evalObjectLiteral
          (map (λ entry,
                  (camelCase entry.1,
                   termsOf
                     (firstReferences
                        (specifiersOf
                           (before ++ (n1, e1)
                              :: between ++ (n2, e2) :: after)))
                     entry.2))
             (before ++ between ++ (n2, e2) :: after)).
Proof.
  intros Hfree _ Hkey Hafter. eexists. split.
  - exact (readModule_synthesize _ _ Hfree).
  - unfold readingOf. cbn [moduleExport].
    set (refs := firstReferences _). split.
    + replace (before ++ (n1, e1) :: between ++ (n2, e2) :: after)
        with ((before ++ (n1, e1) :: between) ++ (n2, e2) :: after)
        by now rewrite <- app_assoc.
      rewrite moduleExport_app_keys. cbn [map fst snd].
      apply evalObjectLiteral_last, keyUnused_properties, Hafter.
    + rewrite !moduleExport_app_keys. cbn [map fst snd].
      rewrite !moduleExport_app_keys. cbn [map fst snd].
      rewrite Hkey. apply evalObjectLiteral_shadowed.
Qed.

End Plugin.

(** ** An apostrophe in a name

    What the module is, read as JavaScript, when a name that the code
    writes between single quotes has an apostrophe: [escape] leaves the
    apostrophe as it is, so the literal ends there. *)

(** C3: a table whose one class has the compiled name made of an
    apostrophe and a plus sign, and composes the class n of another file
    and then the local class made of a plus sign and an apostrophe.  The
    file is imported once, as dependency_0, but the value of the class has
    no lookup in it: read as JavaScript, the value is three string
    literals, the lookup expression being the characters of the one in the
    middle, and its value at run time is that text whatever the imported
    module holds.  Without the apostrophes the composition is the lookup of
    n in dependency_0. *)
Theorem C3_lookup_inside_literal :
  readModule
    (synthesize (λ readable, readable) "css-modules://AAAA.css"
       quotedAroundDependency)
  = Some {| moduleImports :=
              [{| importedAs := Some "dependency_0";
                  importedFrom := "./one.module.css" |};
               {| importedAs := None;
                  importedFrom := "css-modules://AAAA.css" |}];
            moduleExport :=
              [("a", [Lit EmptyString;
                      Lit (" + dependency_0[" +:+ quote "n" +:+ "] + ");
                      Lit EmptyString])] |}
  ∧ (∀ env,
       termsValue env
         [Lit EmptyString;
          Lit (" + dependency_0[" +:+ quote "n" +:+ "] + ");
          Lit EmptyString]
       = " + dependency_0[" +:+ quote "n" +:+ "] + ")
  ∧ termsOf ["./one.module.css"]
      {| name := "'+";
         composes := Some [dependency "n" "./one.module.css"; local "+'"] |}
    = [Lit "'+ "; Lookup "dependency_0" "n"; Lit " +'"].
Proof. repeat split; vm_compute; reflexivity. Qed.

(** C7: a table of two classes with the same accessor key, the later one
    with an apostrophe in its compiled name.  The module text has both
    properties, but it is not JavaScript: the literal of the later
    property ends at the apostrophe, a name follows it where a comma or a
    plus sign has to be, and the apostrophe that was to close the literal
    opens one that the line end cuts.  There is no export object, so the
    later class is not in it. *)
Theorem C7_apostrophe_breaks_module :
  sampleCamelCase "my-a" = sampleCamelCase "myA"
  ∧ synthesize sampleCamelCase "css-modules://AAAA.css" collidingWithApostrophe
    = primaryImport "css-modules://AAAA.css"
        +:+ exportStatement [("myA", "'h_a'"); ("myA", "'x'y'")]
        +:+ sourceMapMarker
  ∧ lexRun lexStart
      (synthesize sampleCamelCase "css-modules://AAAA.css"
         collidingWithApostrophe)
    = {| lexed :=
           [TName "import"; TString "css-modules://AAAA.css"; TNewline;
            TName "export"; TName "default"; TPunct "{";
            TString "myA"; TPunct ":"; TString "h_a"; TPunct ",";
            TString "myA"; TPunct ":"; TString "x"; TName "y"];
         lexMode := LexFailed |}
  ∧ readModule
      (synthesize sampleCamelCase "css-modules://AAAA.css"
         collidingWithApostrophe)
    = None.
Proof. repeat split; vm_compute; reflexivity. Qed.

(** C8: a class a whose compiled name has two apostrophes around a plus
    sign, composing the local class b and then the global class glb.  The
    value written for it is not one string: read as JavaScript it is two
    literals added, and its value at run time has lost the apostrophes and
    the plus sign of the compiled name, so it is not the compiled name
    followed by b and glb.  With the compiled name of two letters around
    one apostrophe the module is not JavaScript at all. *)
Theorem C8_apostrophe_splits_value :
  (∀ s, compiledCssClassesOf betweenApostrophes s = ("'x'+'y b glb'", s))
  ∧ readModule
      (synthesize (λ readable, readable) "css-modules://AAAA.css"
         [("a", betweenApostrophes)])
    = Some {| moduleImports :=
                [{| importedAs := None;
                    importedFrom := "css-modules://AAAA.css" |}];
              moduleExport := [("a", [Lit "x"; Lit "y b glb"])] |}
  ∧ (∀ env, termsValue env [Lit "x"; Lit "y b glb"] = "xy b glb")
  ∧ spaceJoined betweenApostrophes = "x'+'y b glb"
  ∧ (∀ env,
       termsValue env [Lit "x"; Lit "y b glb"]
       ≠ spaceJoined betweenApostrophes)
  ∧ readModule
      (synthesize (λ readable, readable) "css-modules://AAAA.css"
         [("a", {| name := "x'y";
                   composes := Some [local "b"; global "glb"] |})])
    = None.
Proof.
  repeat split; try (vm_compute; reflexivity).
  intros env. vm_compute. discriminate.
Qed.

(** ** Instances *)

Lemma C1_imports_prepended_witness :
  specifiersOf sharedDependency ≠ []
  ∧ synthesize (λ readable, readable) "css-modules://AAAA.css" sharedDependency
    = joinAll [importStatement "dependency_1" "./two.module.css";
               importStatement "dependency_0" "./one.module.css";
               primaryImport "css-modules://AAAA.css";
               exportStatement
                 (exportProperties (λ readable, readable)
                    ["./one.module.css"; "./two.module.css"] sharedDependency);
               sourceMapMarker].
Proof.
  assert (Hdep : specifiersOf sharedDependency ≠ []) by (vm_compute; discriminate).
  split; [exact Hdep|].
  exact (proj1 (C1_imports_prepended (λ readable, readable)
                  "css-modules://AAAA.css" sharedDependency Hdep)).
Defined.

(** C1 as the specification words it fails: with one Dependency composition
    the text opens with the dependency import, not with the import of the
    primary stylesheet. *)
Lemma C1_counterexample :
  specifiersOf oneDependency ≠ []
  ∧ synthesize (λ readable, readable) "css-modules://AAAA.css" oneDependency
    ≠ joinAll (specifiedStatements (λ readable, readable)
                 "css-modules://AAAA.css" oneDependency)
  ∧ synthesize (λ readable, readable) "css-modules://AAAA.css" oneDependency
    = joinAll [importStatement "dependency_0" "./one.module.css";
               primaryImport "css-modules://AAAA.css";
               exportStatement
                 [("a", Js.str Js.SQ +:+ "h_a ' + dependency_0["
                          +:+ quote "x" +:+ "] + '" +:+ Js.str Js.SQ)];
               sourceMapMarker].
Proof.
  split; [vm_compute; discriminate|].
  split; [vm_compute; discriminate | vm_compute; reflexivity].
Qed.

Lemma C4_cache_round_trip_witness :
  onLoadVirtual sampleInitialOptions
    (onLoad (λ path, path) (λ readable, readable) (λ path, "/src")
       (λ buffer, buffer) (λ buffer, buffer) sampleOptions
       (sampleBundle (Some [])) initialState "/src/a.module.css").2
    "css-modules:///src/a.module.css.css"
  = Normal
      {| res_contents :=
           ".h_a{color:red}/*# sourceMappingURL=data:application/json;base64,e30= */";
         res_loader := "css";
         res_resolveDir := Some "/src" |}.
Proof.
  exact (proj2 (C4_cache_round_trip (λ path, path) (λ readable, readable)
                  (λ path, "/src") (λ buffer, buffer) (λ buffer, buffer)
                  sampleOptions sampleInitialOptions (sampleBundle (Some []))
                  initialState "/src/a.module.css" (sampleResult (Some [])) []
                  eq_refl eq_refl eq_refl)).
Defined.

Lemma C5_failed_transform_witness :
  let '(outcome, st') :=
    onLoad (λ path, path) (λ readable, readable) (λ path, "/src")
      (λ buffer, buffer) (λ buffer, buffer) sampleOptions
      failingBundle initialState "/src/a.module.css" in
  outcome = Throw (TransformError "Unexpected token")
  ∧ transpiledCssModulesMap st' = transpiledCssModulesMap initialState
  ∧ console st'
    = console initialState
        ++ [("lightning css bundling failed:", TransformError "Unexpected token")].
Proof.
  exact (C5_failed_transform (λ path, path) (λ readable, readable)
           (λ path, "/src") (λ buffer, buffer) (λ buffer, buffer)
           sampleOptions failingBundle initialState "/src/a.module.css"
           (TransformError "Unexpected token") eq_refl eq_refl).
Defined.

Lemma C6_unregistered_identity_witness :
  onLoadVirtual sampleInitialOptions
    (run (λ path, path) (λ readable, readable) (λ path, "/src")
       (λ buffer, buffer) (λ buffer, buffer)
       [LoadFile sampleOptions (sampleBundle (Some [])) "/src/a.module.css";
        LoadVirtual "css-modules:///src/a.module.css.css";
        LoadFile sampleOptions failingBundle "/src/b.module.css";
        LoadFile excludingOptions (sampleBundle (Some [])) "/src/b.module.css"])
    "css-modules:///src/b.module.css.css"
  = Throw TypeError.
Proof.
  apply (C6_unregistered_identity (λ path, path) (λ readable, readable)
           (λ path, "/src") (λ buffer, buffer) (λ buffer, buffer)).
  repeat constructor.
  - intros [H _]. discriminate H.
  - intros H. exact H.
  - intros [_ [result H]]. discriminate H.
  - intros [_ [result H]]. discriminate H.
Defined.

Lemma C9_identity_of_path_witness :
  onLoad (λ path, path) (λ readable, readable) (λ path, "/src")
    (λ buffer, buffer) (λ buffer, buffer) sampleOptions
    (sampleBundle (Some [])) initialState "/src/a.module.css"
  = (Normal (Some {| res_contents :=
                       synthesize (λ readable, readable)
                         "css-modules:///src/a.module.css.css" [];
                     res_loader := "js";
                     res_resolveDir := None |}),
     {| transpiledCssModulesMap :=
          {[ "css-modules:///src/a.module.css.css"
             := {| code := ".h_a{color:red}/*# sourceMappingURL=data:application/json;base64,e30= */";
                   resolveDir := "/src" |} ]};
        console := [] |}).
Proof.
  exact (proj1 (proj2
    (C9_identity_of_path (λ path, path) (λ readable, readable)
       (λ path, "/src") (λ buffer, buffer) (λ buffer, buffer)
       sampleOptions sampleOptions
       (sampleBundle (Some []))
       (sampleBundle (Some [("a", {| name := "h_a"; composes := None |})]))
       initialState
       {| transpiledCssModulesMap := ∅;
          console := [("lightning css bundling failed:", TypeError)] |}
       "/src/a.module.css" _ _ _ _
       eq_refl eq_refl eq_refl eq_refl eq_refl eq_refl))).
Defined.


Lemma escape_inert_iff_witness :
  inertInLiteral (escape (String "a" (String Js.LF (String Js.DQ "b")))).
Proof.
  exact (proj2 (escape_inert_iff (String "a" (String Js.LF (String Js.DQ "b"))))
           eq_refl).
Defined.

Lemma escape_identity_iff_witness :
  escape "EgL3uq_my-button" = "EgL3uq_my-button"
  ∧ String.length "a\b" < String.length (escape "a\b").
Proof.
  split.
  - exact (proj2 (proj1 (escape_identity_iff "EgL3uq_my-button")) eq_refl).
  - exact (proj1 (proj2 (escape_identity_iff "a\b")) eq_refl).
Defined.

Lemma importDependency_records_witness :
  JsMap.get
    (dependencies
       (importDependency "./two.module.css"
          {| contents := "import dependency_0 from ...";
             dependencies := [("./one.module.css", "dependency_0")] |}).2)
    "./one.module.css"
  = Some "dependency_0".
Proof.
  exact (proj1 (proj2
    (importDependency_records "./two.module.css"
       {| contents := "import dependency_0 from ...";
          dependencies := [("./one.module.css", "dependency_0")] |}))
    "./one.module.css" "dependency_0" eq_refl).
Defined.

Lemma synthesize_without_dependencies_witness :
  readModule
    (synthesize (λ readable, readable) "css-modules://AAAA.css"
       localThenGlobal)
  = Some {| moduleImports :=
              [{| importedAs := None;
                  importedFrom := "css-modules://AAAA.css" |}];
            moduleExport := [("a", [Lit "h_a h_b g"]); ("b", [Lit "h_b"])] |}
  ∧ synthesize (λ readable, readable) "css-modules://AAAA.css" localThenGlobal
    = primaryImport "css-modules://AAAA.css"
        +:+ exportStatement
              [("a", Js.str Js.SQ +:+ "h_a h_b g" +:+ Js.str Js.SQ);
               ("b", Js.str Js.SQ +:+ "h_b" +:+ Js.str Js.SQ)]
        +:+ sourceMapMarker.
Proof.
  exact (synthesize_without_dependencies (λ readable, readable)
           "css-modules://AAAA.css" localThenGlobal eq_refl eq_refl).
Defined.

Lemma synthesize_reads_as_module_witness :
  apostropheFree sharedDependency = true
  ∧ readModule
      (synthesize (λ readable, readable) "css-modules://AAAA.css"
         sharedDependency)
    = Some {| moduleImports :=
                [{| importedAs := Some "dependency_1";
                    importedFrom := "./two.module.css" |};
                 {| importedAs := Some "dependency_0";
                    importedFrom := "./one.module.css" |};
                 {| importedAs := None;
                    importedFrom := "css-modules://AAAA.css" |}];
              moduleExport :=
                [("a", [Lit "h_a "; Lookup "dependency_0" "x"; Lit " ";
                        Lookup "dependency_1" "y"; Lit EmptyString]);
                 ("b", [Lit "h_b "; Lookup "dependency_0" "z";
                        Lit EmptyString])] |}.
Proof.
  split; [reflexivity|].
  exact (proj1 (synthesize_reads_as_module (λ readable, readable)
                  "css-modules://AAAA.css" sharedDependency eq_refl)).
Defined.

Lemma colliding_keys_later_wins_witness :
  sampleCamelCase "my-a" = sampleCamelCase "myA"
  ∧ ∃ m,
      readModule
        (synthesize sampleCamelCase "css-modules://AAAA.css" collidingKeys)
      = Some m
      ∧ evalObjectLiteral (moduleExport m) !! "myA" = Some [Lit "h_b h_c"]
      ∧ evalObjectLiteral (moduleExport m)
        = evalObjectLiteral [("myA", [Lit "h_b h_c"])].
Proof.
  split; [reflexivity|].
  apply (colliding_keys_later_wins sampleCamelCase "css-modules://AAAA.css"
           [] [] [] "my-a" "myA"
           {| name := "h_a"; composes := None |}
           {| name := "h_b"; composes := Some [local "h_c"] |}).
  - reflexivity.
  - repeat constructor; discriminate.
  - reflexivity.
  - constructor.
Defined.

Lemma onLoad_cache_frame_witness :
  transpiledCssModulesMap
    (onLoad (λ path, path) (λ readable, readable) (λ path, "/src")
       (λ buffer, buffer) (λ buffer, buffer) sampleOptions failingBundle
       (cacheSet initialState "css-modules:///src/a.module.css.css"
          {| code := ".h_a{}"; resolveDir := "/src" |})
       "/src/a.module.css").2
  = transpiledCssModulesMap
      (cacheSet initialState "css-modules:///src/a.module.css.css"
         {| code := ".h_a{}"; resolveDir := "/src" |}).
Proof.
  apply (onLoad_cache_frame (λ path, path) (λ readable, readable)
           (λ path, "/src") (λ buffer, buffer) (λ buffer, buffer)
           sampleOptions failingBundle).
  intros result H. discriminate H.
Defined.

Lemma cache_only_grows_witness :
  is_Some
    (transpiledCssModulesMap
       (run (λ path, path) (λ readable, readable) (λ path, "/src")
          (λ buffer, buffer) (λ buffer, buffer)
          ([LoadFile sampleOptions (sampleBundle (Some [])) "/src/a.module.css"]
             ++ [LoadFile sampleOptions failingBundle "/src/a.module.css";
                 LoadFile sampleOptions (sampleBundle None) "/src/a.module.css";
                 LoadFile excludingOptions failingBundle "/src/a.module.css"]))
     !! "css-modules:///src/a.module.css.css").
Proof.
  apply (cache_only_grows (λ path, path) (λ readable, readable)
           (λ path, "/src") (λ buffer, buffer) (λ buffer, buffer)).
  eexists. reflexivity.
Defined.

Lemma cache_latest_transform_witness :
  ∃ before options bundle path rslt exports after,
    [LoadFile excludingOptions (sampleBundle (Some [])) "/src/a.module.css";
     LoadFile sampleOptions (sampleBundle (Some [])) "/src/a.module.css";
     LoadFile sampleOptions failingBundle "/src/a.module.css"]
    = before ++ LoadFile options bundle path :: after
    ∧ excluded options path = false
    ∧ bundle path = Normal rslt
    ∧ rslt_exports rslt = Some exports
    ∧ "css-modules://" +:+ path +:+ ".css" = "css-modules:///src/a.module.css.css"
    ∧ {| code := ".h_a{color:red}/*# sourceMappingURL=data:application/json;base64,e30= */";
         resolveDir := "/src" |}
      = {| code :=
             finalCode (λ buffer, buffer) (λ buffer, buffer) rslt;
           resolveDir := "/src" |}
    ∧ Forall
        (λ r, ¬ issues (λ path, path) (λ readable, readable) (λ path, "/src")
                  (λ buffer, buffer) (λ buffer, buffer) r
                  "css-modules:///src/a.module.css.css")
        after.
Proof.
  exact (cache_latest_transform (λ path, path) (λ readable, readable)
           (λ path, "/src") (λ buffer, buffer) (λ buffer, buffer)
           [LoadFile excludingOptions (sampleBundle (Some []))
              "/src/a.module.css";
            LoadFile sampleOptions (sampleBundle (Some [])) "/src/a.module.css";
            LoadFile sampleOptions failingBundle "/src/a.module.css"]
           "css-modules:///src/a.module.css.css"
           {| code := ".h_a{color:red}/*# sourceMappingURL=data:application/json;base64,e30= */";
              resolveDir := "/src" |}
           eq_refl).
Defined.


Lemma cssModulesConfig_precedence_witness :
  cssModulesConfig (Some "[local]_[hash]")
    (Some {[ "pattern" := JsString "[name]_[local]";
             "dashedIdents" := JsBoolean true ]})
  !! "pattern"
  = Some (JsString "[name]_[local]").
Proof.
  exact (proj1
    (cssModulesConfig_precedence (Some "[local]_[hash]")
       (Some {[ "pattern" := JsString "[name]_[local]";
                "dashedIdents" := JsBoolean true ]}))
    _ "pattern" (JsString "[name]_[local]") eq_refl eq_refl).
Defined.

Lemma default_filter_witness :
  includeFilterTest None
    ("css-modules://" +:+ "n4bQgYhMfWWaL-qgxVrQFaO_TxsrC4Is0V1sFbDwCgg" +:+ ".css")
  = false.
Proof.
  exact (proj2
    (default_filter (λ path, "n4bQgYhMfWWaL-qgxVrQFaO_TxsrC4Is0V1sFbDwCgg")
       "button" "/src/button.module.css")
    eq_refl).
Defined.
